(** * PDF Page Editor: the page-collection interaction core of [gui.py]

    A shallow embedding of the selection, drag-and-drop reordering and
    export logic of [PDFPageEditorApp], with Python's list and exception
    behaviour written out, followed by the properties of the design
    document that concern them. *)

From stdpp Require Import base decidable option numbers list sorting gmap strings pretty.
From Stdlib Require Import QArith.QArith_base Lqa.

Local Open Scope Z_scope.

(** ** Exceptions and fallible computations *)

Inductive exception :=
  | IndexError
  | ValueError
  | FileNotFoundError (path : string)
  | RuntimeError (msg : string).

Inductive result (A : Type) :=
  | Ok (a : A)
  | Raise (e : exception).
Arguments Ok {A} a.
Arguments Raise {A} e.

Global Instance result_bind : MBind result := λ A B k c,
  match c with
  | Ok a => k a
  | Raise e => Raise e
  end.
Global Instance result_ret : MRet result := λ A a, Ok a.

(** [for x in xs: acc = body(acc, x)], stopping at the first exception. *)
Fixpoint for_each {A S} (xs : list A) (body : S → A → result S) (acc : S)
  : result S :=
  match xs with
  | [] => Ok acc
  | x :: xs' => acc' ← body acc x ; for_each xs' body acc'
  end.

(** [[f(x) for x in xs]]. *)
Fixpoint comprehension {A B} (f : A → result B) (xs : list A)
  : result (list B) :=
  match xs with
  | [] => Ok []
  | x :: xs' => y ← f x ; ys ← comprehension f xs' ; Ok (y :: ys)
  end.

(** ** Python's list operations, with integer subscripts *)

Module Py.

Definition len {A} (l : list A) : Z := Z.of_nat (length l).

(** A subscript [l[i]]: a negative [i] counts from the end, and anything
    still outside [0, len l) raises [IndexError]. *)
Definition subscript {A} (l : list A) (i : Z) : result nat :=
  let j := if i <? 0 then i + len l else i in
  if (j <? 0) || (len l <=? j) then Raise IndexError else Ok (Z.to_nat j).

Definition getitem {A} (l : list A) (i : Z) : result A :=
  j ← subscript l i ;
  match l !! j with
  | Some x => Ok x
  | None => Raise IndexError
  end.

(** [del l[i]] *)
Definition delitem {A} (l : list A) (i : Z) : result (list A) :=
  j ← subscript l i ; Ok (delete j l).

(** [l.pop(i)] *)
Definition pop {A} (l : list A) (i : Z) : result (A * list A) :=
  x ← getitem l i ; l' ← delitem l i ; Ok (x, l').

(** [l.insert(i, x)] never raises: the position is clamped to
    [0, len l], a negative one counting from the end first. *)
Definition insert {A} (l : list A) (i : Z) (x : A) : list A :=
  let j := if i <? 0 then Z.max 0 (i + len l) else Z.min i (len l) in
  take (Z.to_nat j) l ++ x :: drop (Z.to_nat j) l.

(** [x in l] *)
Definition contains `{EqDecision A} (x : A) (l : list A) : bool :=
  bool_decide (x ∈ l).

(** [l.index(x)]: position of the first occurrence. *)
Fixpoint index `{EqDecision A} (l : list A) (x : A) : result Z :=
  match l with
  | [] => Raise ValueError
  | y :: l' => if decide (y = x) then Ok 0 else i ← index l' x ; Ok (1 + i)
  end.

(** [l.remove(x)]: drops the first occurrence. *)
Fixpoint remove `{EqDecision A} (l : list A) (x : A) : result (list A) :=
  match l with
  | [] => Raise ValueError
  | y :: l' =>
      if decide (y = x) then Ok l' else r ← remove l' x ; Ok (y :: r)
  end.

(** [list(range(a, b))] *)
Definition range (a b : Z) : list Z :=
  (λ k : nat, a + Z.of_nat k) <$> seq 0 (Z.to_nat (b - a)).

(** [sorted(l)] on integers. *)
Definition sorted (l : list Z) : list Z := merge_sort Z.le l.

(** [enumerate(l, start)], and [enumerate(l)] which starts at 0. *)
Definition enumerate_from {A} (start : Z) (l : list A) : list (Z * A) :=
  imap (λ i x, (start + Z.of_nat i, x)) l.

Definition enumerate {A} (l : list A) : list (Z * A) := enumerate_from 0 l.

End Py.

(** ** The data model *)

(** A Tk widget with the chain of its [master]s; the root window has none.
    Tk compares widgets by identity, which two widgets share exactly when
    they have the same name and the same ancestors. *)
Inductive widget :=
  | Root (wid : nat)
  | Child (wid : nat) (master : widget).

Global Instance widget_eq_dec : EqDecision widget.
Proof. solve_decision. Defined.

(** [widget.master] *)
Definition master_of (w : widget) : option widget :=
  match w with
  | Root _ => None
  | Child _ m => Some m
  end.

Definition THUMBNAIL_MAX_WIDTH : Z := 180.
Definition THUMBNAIL_MAX_HEIGHT : Z := 240.
Definition PAGE_FRAME_PADX : Z := 8.

(** [PageItem]: the images are opaque handles of the rendering provider and
    [include_var] is the current value of the page's [tk.BooleanVar]. *)
Record PageItem := {
  source_path : string;
  page_index : Z;
  image : nat;
  photo : nat;
  include_var : bool;
}.

Global Instance PageItem_eq_dec : EqDecision PageItem.
Proof. solve_decision. Defined.

(** The fields of [PDFPageEditorApp] the handlers read and write.
    [insert_bar] holds the x coordinate at which the insertion bar is
    placed while it exists. *)
Record App := {
  pages : list PageItem;
  page_frames : list widget;
  selected_indices : list Z;
  last_clicked_index : option Z;
  dragging : bool;
  drag_start_index : option Z;
  drop_index : option Z;
  insert_bar : option Z;
}.

(** The state [__init__] sets up. *)
Definition init : App := {|
  pages := [];
  page_frames := [];
  selected_indices := [];
  last_clicked_index := None;
  dragging := false;
  drag_start_index := None;
  drop_index := None;
  insert_bar := None;
|}.

(** What the handlers ask of the toolkit: the geometry of the laid-out
    frames, the screen position of the row's inner frame, and the
    platform name. *)
Record Tk := {
  winfo_x : widget → Z;
  winfo_width : widget → Z;
  inner_rootx : Z;
  platform : string;
}.

(** A pointer event: the modifier mask and the pointer's screen x. *)
Record Event := {
  state : Z;
  x_root : Z;
}.

(** Field updates, one per attribute the handlers assign. *)
Definition set_lists (ps : list PageItem) (fs : list widget) (a : App) : App :=
  {| pages := ps; page_frames := fs;
     selected_indices := selected_indices a;
     last_clicked_index := last_clicked_index a;
     dragging := dragging a; drag_start_index := drag_start_index a;
     drop_index := drop_index a; insert_bar := insert_bar a |}.

Definition set_selected_indices (sel : list Z) (a : App) : App :=
  {| pages := pages a; page_frames := page_frames a;
     selected_indices := sel;
     last_clicked_index := last_clicked_index a;
     dragging := dragging a; drag_start_index := drag_start_index a;
     drop_index := drop_index a; insert_bar := insert_bar a |}.

Definition set_last_clicked_index (i : option Z) (a : App) : App :=
  {| pages := pages a; page_frames := page_frames a;
     selected_indices := selected_indices a;
     last_clicked_index := i;
     dragging := dragging a; drag_start_index := drag_start_index a;
     drop_index := drop_index a; insert_bar := insert_bar a |}.

Definition set_drag (dr : bool) (start drop : option Z) (a : App) : App :=
  {| pages := pages a; page_frames := page_frames a;
     selected_indices := selected_indices a;
     last_clicked_index := last_clicked_index a;
     dragging := dr; drag_start_index := start;
     drop_index := drop; insert_bar := insert_bar a |}.

Definition set_insert_bar (bar : option Z) (a : App) : App :=
  {| pages := pages a; page_frames := page_frames a;
     selected_indices := selected_indices a;
     last_clicked_index := last_clicked_index a;
     dragging := dragging a; drag_start_index := drag_start_index a;
     drop_index := drop_index a; insert_bar := bar |}.

(** ** Page management *)

(** One round of the inner loop of [_import_pdfs]: the page is appended and
    [_create_page_frame] appends its frame. *)
Definition import_page (item : PageItem) (frame : widget) (a : App) : App :=
  set_lists (pages a ++ [item]) (page_frames a ++ [frame]) a.

(** The page's check button writes its [include_var]. *)
Definition set_include (v : bool) (p : PageItem) : PageItem :=
  {| source_path := source_path p; page_index := page_index p;
     image := image p; photo := photo p; include_var := v |}.

Definition toggle_include (i : nat) (a : App) : App :=
  set_lists
    (alter (λ p, set_include (negb (include_var p)) p) i (pages a))
    (page_frames a) a.

(** ** Selection logic *)

(** The loop of [_index_from_frame_or_child]: climb from [current] until a
    page frame is met; [None] is Python's [None], past the root. *)
Fixpoint walk_up (frames : list widget) (current : widget) : option widget :=
  if Py.contains current frames then Some current
  else match current with
       | Root _ => None
       | Child _ m => walk_up frames m
       end.

Definition _index_from_frame_or_child (a : App) (w : widget) : result Z :=
  match walk_up (page_frames a) w with
  | Some current =>
      if Py.contains current (page_frames a)
      then Py.index (page_frames a) current
      else Ok (-1)
  | None => Ok (-1)
  end.

(** The modifier keys of an event. *)
Definition ctrl_of (tk : Tk) (event : Event) : bool :=
  negb (Z.land (state event) 4 =? 0)
  || (String.eqb (platform tk) "darwin"
      && negb (Z.land (state event) 8 =? 0)).

Definition shift_of (event : Event) : bool :=
  negb (Z.land (state event) 1 =? 0).

(** The three branches of [_on_click], for a resolved [index]. *)
Definition click_select (shift ctrl : bool) (index : Z) (a : App)
  : result App :=
  match shift, last_clicked_index a with
  | true, Some last =>
      let start := Z.min last index in
      let end_ := Z.max last index in
      Ok (set_selected_indices (Py.range start (end_ + 1)) a)
  | _, _ =>
      if ctrl then
        sel ← (if Py.contains index (selected_indices a)
               then Py.remove (selected_indices a) index
               else Ok (selected_indices a ++ [index])) ;
        Ok (set_last_clicked_index (Some index)
              (set_selected_indices (Py.sorted sel) a))
      else
        Ok (set_last_clicked_index (Some index)
              (set_selected_indices [index] a))
  end.

Definition _on_click (tk : Tk) (event : Event) (frame : widget) (a : App)
  : result App :=
  index ← _index_from_frame_or_child a frame ;
  let ctrl := ctrl_of tk event in
  let shift := shift_of event in
  a ← click_select shift ctrl index a ;
  (* _refresh_selection_visuals only recolours the frames *)
  Ok (set_drag false (Some index) None a).

(** ** Drag and drop *)

(** [x + w / 2]: a true division, exact on pixel coordinates. *)
Definition midpoint (x w : Z) : Q := (inject_Z x + inject_Z w / 2)%Q.

(** [p < q] on numbers. *)
Definition Qlt_bool (p q : Q) : bool := negb (Qle_bool q p).

(** The scanning loop of [_compute_drop_index]; [None] when it runs to
    its end without returning. *)
Fixpoint scan_positions (positions : list (Z * Z * Z)) (x_in_inner : Q)
  : option Z :=
  match positions with
  | [] => None
  | (i, x, w) :: rest =>
      let mid := midpoint x w in
      if Qlt_bool x_in_inner mid then Some i
      else scan_positions rest x_in_inner
  end.

(** The part of [_compute_drop_index] that follows the reading of the
    frames' geometry. *)
Definition drop_index_of (positions : list (Z * Z * Z)) (x_in_inner : Q)
  : Z :=
  match positions with
  | [] => 0
  | _ =>
      match scan_positions positions x_in_inner with
      | Some i => i
      | None => Py.len positions
      end
  end.

(** The pointer is compared as a number: an [int] when it comes from
    [_on_drag], and any number as far as Python is concerned. *)
Definition _compute_drop_index (tk : Tk) (a : App) (x_in_inner : Q) : Z :=
  let positions :=
    (λ '(i, f), (i, winfo_x tk f, winfo_width tk f))
      <$> Py.enumerate (page_frames a) in
  drop_index_of positions x_in_inner.

Definition _show_insert_bar (tk : Tk) (index : Z) (a : App) : result App :=
  x ← (if Py.len (page_frames a) <=? index then
         match page_frames a with
         | _ :: _ =>
             last ← Py.getitem (page_frames a) (-1) ;
             Ok (winfo_x tk last + winfo_width tk last + PAGE_FRAME_PADX)
         | [] => Ok 0
         end
       else
         f ← Py.getitem (page_frames a) index ;
         let x := winfo_x tk f - Z.quot PAGE_FRAME_PADX 2 in
         Ok (if x <? 0 then 0 else x)) ;
  Ok (set_insert_bar (Some x) a).

Definition _hide_insert_bar (a : App) : App :=
  match insert_bar a with
  | Some _ => set_insert_bar None a
  | None => a
  end.

Definition _on_drag (tk : Tk) (event : Event) (frame : widget) (a : App)
  : result App :=
  match drag_start_index a with
  | None => Ok a
  | Some start =>
      let x_in_inner := x_root event - inner_rootx tk in
      let d := _compute_drop_index tk a (inject_Z x_in_inner) in
      _show_insert_bar tk d (set_drag true (Some start) (Some d) a)
  end.

(** [sum(1 for i in sel if i < dest)] *)
Definition removed_before (sel : list Z) (dest : Z) : Z :=
  foldr Z.add 0 ((λ _, 1) <$> filter (λ i, i < dest) sel).

(** The destination adjusted for the removals, with the guard at zero. *)
Definition adjusted_dest (sel : list Z) (drop : Z) : Z :=
  let dest := drop in
  let dest := dest - removed_before sel dest in
  if dest <? 0 then 0 else dest.

(** [for i in reversed(sel): del self.pages[i]; self.page_frames.pop(i)] *)
Definition remove_selected (sel : list Z)
    (lists : list PageItem * list widget)
  : result (list PageItem * list widget) :=
  for_each (reverse sel)
    (λ '(ps, fs) i,
       ps' ← Py.delitem ps i ;
       '(f, fs') ← Py.pop fs i ;
       (* f.grid_forget() *)
       Ok (ps', fs'))
    lists.

(** [for offset, (p, f) in enumerate(zip(pages_to_move, frames_to_move))] *)
Definition insert_moved (dest : Z)
    (pages_to_move : list PageItem) (frames_to_move : list widget)
    (lists : list PageItem * list widget)
  : list PageItem * list widget :=
  foldl
    (λ '(ps, fs) '(offset, (p, f)),
       (Py.insert ps (dest + offset) p, Py.insert fs (dest + offset) f))
    lists
    (Py.enumerate (zip pages_to_move frames_to_move)).

Definition _on_release (event : Event) (frame : widget) (a : App)
  : result App :=
  match dragging a, drop_index a with
  | true, Some drop =>
      let a := _hide_insert_bar a in
      let sel := Py.sorted (selected_indices a) in
      match sel with
      | [] => Ok a
      | _ =>
          let dest := adjusted_dest sel drop in
          pages_to_move ← comprehension (Py.getitem (pages a)) sel ;
          frames_to_move ← comprehension (Py.getitem (page_frames a)) sel ;
          '(ps, fs) ← remove_selected sel (pages a, page_frames a) ;
          let '(ps, fs) :=
            insert_moved dest pages_to_move frames_to_move (ps, fs) in
          (* _layout_page_frames re-grids the frames in their new order *)
          let a := set_lists ps fs a in
          let a :=
            set_selected_indices (Py.range dest (dest + Py.len sel)) a in
          Ok (set_drag false None None a)
      end
  | _, _ => Ok a
  end.

(** ** Export *)

(** What the file system does when the output is written: opening a
    path for writing raises (a missing directory, no permission) or
    creates the file empty, and [writer.write] into the file just opened
    raises (a full disk) or completes. *)
Record Disk := {
  open_wb : string → result unit;
  write_pdf : string → result unit;
}.

Section ExportModel.

(** What a page of a document holds is the assembler's business. *)
Context {page_content : Type}.

(** The stored documents, by path. *)
Abbreviation files := (gmap string (list page_content)).

(** The calls [_export_pdf] makes on pypdf and on the file system. *)
Inductive call :=
  | NewWriter
  | OpenReader (path : string)
  | AddPage (path : string) (index : Z)
  | OpenOutput (path : string)
  | WriteFile (path : string).

Record ExportState := {
  log : list call;
  readers : files;
  writer : list page_content;
}.

(** [if item.source_path not in readers: readers[...] = PdfReader(...)]
    followed by [reader = readers[item.source_path]]. *)
Definition reader_for (fs : files) (path : string) (st : ExportState)
: ExportState * result (list page_content) :=
  match readers st !! path with
  | Some reader => (st, Ok reader)
  | None =>
      let st := {| log := log st ++ [OpenReader path];
                   readers := readers st; writer := writer st |} in
      match fs !! path with
      | Some doc =>
          ({| log := log st; readers := <[path := doc]> (readers st);
              writer := writer st |}, Ok doc)
      | None => (st, Raise (FileNotFoundError path))
      end
  end.

(** [writer.add_page(reader.pages[item.page_index])] *)
Definition add_page (item : PageItem) (reader : list page_content)
    (st : ExportState) : ExportState * result unit :=
  match Py.getitem reader (page_index item) with
  | Ok pg =>
      ({| log := log st ++ [AddPage (source_path item) (page_index item)];
          readers := readers st; writer := writer st ++ [pg] |}, Ok ())
  | Raise e => (st, Raise e)
  end.

Fixpoint export_loop (fs : files) (items : list PageItem) (st : ExportState)
  : ExportState * result unit :=
  match items with
  | [] => (st, Ok ())
  | item :: rest =>
      if negb (include_var item) then export_loop fs rest st
      else
        match reader_for fs (source_path item) st with
        | (st, Raise e) => (st, Raise e)
        | (st, Ok reader) =>
            match add_page item reader st with
            | (st, Raise e) => (st, Raise e)
            | (st, Ok _) => export_loop fs rest st
            end
        end
  end.

(** Returns the calls made, the stored documents afterwards and whether
    the export returned or raised. [open(out_path, "wb")] may raise, which
    leaves the files as they were; once it has returned the old content of
    the output is gone, so when [writer.write] raises no document is left
    at that path. *)
Definition _export_pdf (io : Disk) (fs : files) (a : App)
    (out_path : string) : list call * files * result unit :=
  let st := {| log := [NewWriter]; readers := ∅; writer := [] |} in
  match export_loop fs (pages a) st with
  | (st, Raise e) => (log st, fs, Raise e)
  | (st, Ok _) =>
      if Py.len (writer st) =? 0
      then (log st, fs,
            Raise (RuntimeError "No pages selected for export."))
      else
        match open_wb io out_path with
        | Raise e => (log st ++ [OpenOutput out_path], fs, Raise e)
        | Ok _ =>
            let calls := log st ++ [OpenOutput out_path;
                                    WriteFile out_path] in
            match write_pdf io out_path with
            | Raise e => (calls, delete out_path fs, Raise e)
            | Ok _ => (calls, <[out_path := writer st]> fs, Ok ())
            end
        end
  end.

(** The pages the log shows were handed to the writer, in order. *)
Definition added_pages (l : list call) : list (string * Z) :=
  omap (λ c, match c with AddPage p i => Some (p, i) | _ => None end) l.

(** The page a reference denotes in the stored documents. *)
Definition fetch (fs : files) (ref : string * Z) : option page_content :=
  doc ← fs !! ref.1 ;
  match Py.getitem doc ref.2 with
  | Ok pg => Some pg
  | Raise _ => None
  end.

End ExportModel.

(** The request of section 4.5 of the design, in its words: the included
    items, in collection order, each as its source and page number. *)
Definition build (collection : list PageItem) : list (string * Z) :=
  (λ item, (source_path item, page_index item))
    <$> filter (λ item, include_var item = true) collection.

(** ** The events of a session *)

(** What can happen between two states: a page arrives from an import, a
    check button is toggled, or one of the three pointer handlers runs. *)
Inductive action :=
  | Import (item : PageItem) (frame : widget)
  | Toggle (i : nat)
  | Click (tk : Tk) (event : Event) (frame : widget)
  | Drag (tk : Tk) (event : Event) (frame : widget)
  | Release (event : Event) (frame : widget).

Definition run (act : action) (a : App) : result App :=
  match act with
  | Import item frame => Ok (import_page item frame a)
  | Toggle i => Ok (toggle_include i a)
  | Click tk event frame => _on_click tk event frame a
  | Drag tk event frame => _on_drag tk event frame a
  | Release event frame => _on_release event frame a
  end.

(** [_create_page_frame] binds the handlers with [fr=frame], so the frame
    they receive is one of the page frames. *)
Definition aimed (a : App) (act : action) : Prop :=
  match act with
  | Import _ _ | Toggle _ => True
  | Click _ _ frame | Drag _ _ frame | Release _ frame =>
      frame ∈ page_frames a
  end.

Inductive reachable : App → Prop :=
  | reachable_init : reachable init
  | reachable_step a act a' :
      reachable a → aimed a act → run act a = Ok a' → reachable a'.

(** [for act in acts: a = run(act, a)] *)
Definition run_all (acts : list action) (a : App) : result App :=
  for_each acts (λ a act, run act a) a.

(** ** Vocabulary of the statements *)

(** Every position of [sel] is a position of a collection of [N] items. *)
Definition in_range (N : Z) (sel : list Z) : Prop :=
  Forall (λ p, 0 ≤ p < N) sel.

(** The items of [l] at the positions in [sel], and those at the other
    positions, each in the order they have in [l]. *)
Definition moved {A} (l : list A) (sel : list Z) : list A :=
  snd <$> filter (λ e, e.1 ∈ sel) (Py.enumerate l).

Definition kept {A} (l : list A) (sel : list Z) : list A :=
  snd <$> filter (λ e, e.1 ∉ sel) (Py.enumerate l).

(** The kept items with the moved ones put in as a run before position
    [dest]. *)
Definition relocated {A} (l : list A) (sel : list Z) (dest : Z) : list A :=
  take (Z.to_nat dest) (kept l sel) ++ moved l sel
    ++ drop (Z.to_nat dest) (kept l sel).

(** [|{p in sel : p < d}|] *)
Definition count_before (sel : list Z) (d : Z) : Z :=
  Py.len (filter (λ p, p < d) sel).

(** The geometry of [N] slots of width [W] with gap [G], the first at 0. *)
Definition uniform_slots (N : nat) (W G : Z) : list (Z * Z) :=
  (λ j : nat, (Z.of_nat j * (W + G), W)) <$> seq 0 N.

(** The midpoint of a slot given as an (x, width) pair. *)
Definition slot_mid (slot : Z * Z) : Q := midpoint slot.1 slot.2.

(** The list the first loop of [_compute_drop_index] builds from slots. *)
Definition slot_positions (slots : list (Z * Z)) : list (Z * Z * Z) :=
  (λ '(i, (x, w)), (i, x, w)) <$> Py.enumerate slots.

(** The slots of the page frames as the toolkit reports them. *)
Definition geometry (tk : Tk) (a : App) : list (Z * Z) :=
  (λ f, (winfo_x tk f, winfo_width tk f)) <$> page_frames a.

(** The invariant of the session state. *)
Record Inv (a : App) : Prop := {
  inv_lockstep : length (page_frames a) = length (pages a);
  inv_nodup : NoDup (selected_indices a);
  inv_selection : in_range (Py.len (pages a)) (selected_indices a);
  inv_anchor : ∀ i, last_clicked_index a = Some i → 0 ≤ i < Py.len (pages a);
  inv_drop : ∀ d, drop_index a = Some d → 0 ≤ d ≤ Py.len (pages a);
}.

(** ** Sample sessions *)

Module Sample.

(** Page [n] of a document, included or not. *)
Definition page (doc : string) (n : Z) (incl : bool) : PageItem :=
  {| source_path := doc; page_index := n; image := 0; photo := 0;
     include_var := incl |}.

(** The frames are children of the row's inner frame, itself under the
    canvas and the root window. *)
Definition inner : widget := Child 2 (Child 1 (Root 0)).
Definition frame (n : nat) : widget := Child (10 + n) inner.

(** Frames 100 wide, 16 apart, the first at x = 8. *)
Definition tk : Tk :=
  {| winfo_x := λ w, match w with
                     | Child n _ => 8 + 116 * (Z.of_nat n - 10)
                     | Root _ => 0
                     end;
     winfo_width := λ _, 100;
     inner_rootx := 0;
     platform := "linux" |}.

Definition plain (x : Z) : Event := {| state := 0; x_root := x |}.
Definition with_shift (x : Z) : Event := {| state := 1; x_root := x |}.
Definition with_ctrl (x : Z) : Event := {| state := 4; x_root := x |}.

Definition A := page "doc.pdf" 0 true.
Definition B := page "doc.pdf" 1 true.
Definition C := page "doc.pdf" 2 true.
Definition D := page "doc.pdf" 3 true.

(** The collection [A, B, C, D] with B and D selected, mid-drag with the
    pointer's drop index at 1. *)
Definition dragging_BD : App :=
  {| pages := [A; B; C; D];
     page_frames := frame <$> [0; 1; 2; 3]%nat;
     selected_indices := [1; 3];
     last_clicked_index := Some 3;
     dragging := true;
     drag_start_index := Some 3;
     drop_index := Some 1;
     insert_bar := Some 120 |}.

(** The same collection with the run B, C selected and dropped on
    itself. *)
Definition dragging_BC : App :=
  {| pages := [A; B; C; D];
     page_frames := frame <$> [0; 1; 2; 3]%nat;
     selected_indices := [1; 2];
     last_clicked_index := Some 2;
     dragging := true;
     drag_start_index := Some 2;
     drop_index := Some 2;
     insert_bar := Some 236 |}.

(** Two pages, the first selected, nothing pressed. *)
Definition two_pages : App :=
  {| pages := [A; B];
     page_frames := frame <$> [0; 1]%nat;
     selected_indices := [0];
     last_clicked_index := Some 0;
     dragging := false;
     drag_start_index := None;
     drop_index := None;
     insert_bar := None |}.

(** Two pages just imported: nothing selected, no anchor yet. *)
Definition fresh : App :=
  import_page B (frame 1) (import_page A (frame 0) init).

(** One page is imported and clicked; a ctrl-click on it then empties the
    selection, and the pointer moves before it is released. *)
Definition empty_drag : list action :=
  [ Import A (frame 0);
    Click tk (plain 50) (frame 0);
    Click tk (with_ctrl 50) (frame 0);
    Drag tk (with_ctrl 70) (frame 0);
    Release (with_ctrl 70) (frame 0) ].

(** One page is imported, pressed and released without any motion. *)
Definition press_only : list action :=
  [ Import A (frame 0);
    Click tk (plain 50) (frame 0);
    Release (plain 50) (frame 0) ].

(** The export scenario of the design: three pages, the second excluded. *)
Definition docs : gmap string (list string) :=
  {[ "docX" := ["X0"; "X1"]; "docY" := ["Y0"] ]}.

Definition export_app (incl : list bool) : App :=
  {| pages := zip_with (λ '(doc, n) b, page doc n b)
                [("docX", 0); ("docX", 1); ("docY", 0)] incl;
     page_frames := frame <$> [0; 1; 2]%nat;
     selected_indices := [];
     last_clicked_index := None;
     dragging := false;
     drag_start_index := None;
     drop_index := None;
     insert_bar := None |}.

End Sample.

(** ** The rest of the application *)

(** The widget itself and its masters, the nearest first. *)
Fixpoint lineage (w : widget) : list widget :=
  w :: match w with
       | Root _ => []
       | Child _ m => lineage m
       end.

(** [_refresh_selection_visuals]: each frame with whether it is drawn as
    selected. *)
Definition _refresh_selection_visuals (a : App) : list (widget * bool) :=
  (λ '(i, frame), (frame, Py.contains i (selected_indices a)))
    <$> Py.enumerate (page_frames a).

(** The frames drawn as selected, in row order. *)
Definition highlighted (a : App) : list widget :=
  (filter (λ v, v.2 = true) (_refresh_selection_visuals a)).*1.

(** Which of the optional imports at the top of the module succeeded; a
    name is [None] in Python when its flag is false here. *)
Record Imports := {
  has_fitz : bool;
  has_Image : bool;
  has_ImageTk : bool;
  has_PdfReader : bool;
  has_PdfWriter : bool;
}.

(** What the rendering side does when called: [fitz.open] gives the number
    of pages of a document or raises; rendering page [i] of a document, from
    [load_page] to [ImageTk.PhotoImage], gives the two image handles or
    raises; and Tk hands out a new frame widget each time one is made, the
    [n]-th of the session being [new_frame n]. *)
Record Provider := {
  fitz_open : string → result nat;
  render : string → Z → result (nat * nat);
  new_frame : nat → widget;
}.

(** What the user sees besides the row: the status line and the dialogs
    opened so far. An error dialog built from an exception keeps the
    exception in place of its text. *)
Inductive dialog :=
  | AskOpenFiles
  | AskSaveFile
  | ShowInfo (title message : string)
  | ShowError (title message : string)
  | ShowFailure (title heading : string) (cause : exception).

Record Ui := {
  status : string;
  dialogs : list dialog;
}.

(** The status line [__init__] starts with. *)
Definition init_ui : Ui := {| status := "Ready"; dialogs := [] |}.

Definition set_status (text : string) (ui : Ui) : Ui :=
  {| status := text; dialogs := dialogs ui |}.

Definition open_dialog (d : dialog) (ui : Ui) : Ui :=
  {| status := status ui; dialogs := dialogs ui ++ [d] |}.




(** A loop whose body updates the state and may raise: the state reached
    is kept when it does. *)
Fixpoint for_each_st {B S} (xs : list B) (body : S → B → S * result unit)
    (s : S) : S * result unit :=
  match xs with
  | [] => (s, Ok ())
  | x :: xs' =>
      match body s x with
      | (s', Ok _) => for_each_st xs' body s'
      | (s', Raise e) => (s', Raise e)
      end
  end.

(** [_create_page_frame]: the frame is made for the item at [index] and
    appended; its thumbnail, check button and bindings hang off it. *)
Definition _create_page_frame (prov : Provider) (index : Z) (a : App)
  : result App :=
  item ← Py.getitem (pages a) index ;
  let frame := new_frame prov (length (page_frames a)) in
  Ok (set_lists (pages a) (page_frames a ++ [frame]) a).

(** The body of the inner loop of [_import_pdfs]. *)
Definition import_doc_page (prov : Provider) (path : string) (a : App)
    (index : Z) : App * result unit :=
  match render prov path index with
  | Raise e => (a, Raise e)
  | Ok (pil_img, photo) =>
      let item := {| source_path := path; page_index := index;
                     image := pil_img; photo := photo;
                     include_var := true |} in
      let a := set_lists (pages a ++ [item]) (page_frames a) a in
      match _create_page_frame prov (Py.len (pages a) - 1) a with
      | Ok a' => (a', Ok ())
      | Raise e => (a, Raise e)
      end
  end.

(** The body of its outer loop. *)
Definition import_doc (m : Imports) (prov : Provider) (a : App)
    (path : string) : App * result unit :=
  if negb (has_fitz m) then (a, Raise (RuntimeError "pymupdf not installed"))
  else
    match fitz_open prov path with
    | Raise e => (a, Raise e)
    | Ok n =>
        for_each_st (Py.range 0 (Z.of_nat n)) (import_doc_page prov path) a
        (* doc.close() *)
    end.

Definition _import_pdfs (m : Imports) (prov : Provider)
    (file_paths : list string) (a : App) : App * result unit :=
  for_each_st file_paths (import_doc m prov) a
  (* _layout_page_frames() grids the frames *).

(** [on_add_pdfs], with the answer of the file dialog as [file_paths]. *)
Definition on_add_pdfs (m : Imports) (prov : Provider)
    (file_paths : list string) (a : App) (ui : Ui) : App * Ui :=
  let ui := open_dialog AskOpenFiles ui in
  match file_paths with
  | [] => (a, ui)
  | _ =>
      match _import_pdfs m prov file_paths a with
      | (a, Ok _) =>
          (a, set_status
                ("Loaded " +:+ pretty (Py.len file_paths)
                   +:+ " file(s), total pages: " +:+ pretty (Py.len (pages a)))
                ui)
      | (a, Raise e) =>
          (a, open_dialog (ShowFailure "Error" "Failed to import PDFs:" e) ui)
      end
  end.

(** [on_export], with the answer the save dialog gives when it is asked:
    the empty string when the user cancels. Returns what the user is shown,
    the calls made for the export and the stored documents afterwards. *)
Definition on_export {page_content : Type} (io : Disk) (m : Imports)
    (answer : string) (fs : gmap string (list page_content))
    (a : App) (ui : Ui)
  : Ui * list (@call) * gmap string (list page_content) :=
  match pages a with
  | [] => (open_dialog (ShowInfo "Export" "No pages to export.") ui, [], fs)
  | _ =>
      if negb (has_PdfReader m) || negb (has_PdfWriter m) then
        (open_dialog
           (ShowError "Missing dependency"
              "pypdf is required for export. See README.") ui, [], fs)
      else
        let ui := open_dialog AskSaveFile ui in
        let out_path := answer in
        if String.eqb out_path "" then (ui, [], fs)
        else
          match _export_pdf io fs a out_path with
          | (calls, fs', Ok _) =>
              (set_status ("Exported to " +:+ out_path) ui, calls, fs')
          | (calls, fs', Raise e) =>
              (open_dialog
                 (ShowFailure "Export failed" "Could not export PDF:" e) ui,
               calls, fs')
          end
  end.

(** ** Vocabulary for imports and exports *)

(** The item [_import_pdfs] builds for page [index] of [path], with the
    two image handles the rendering gave; it starts included. *)
Definition imported_item (path : string) (index : Z) (handles : nat * nat)
  : PageItem :=
  {| source_path := path; page_index := index;
     image := handles.1; photo := handles.2; include_var := true |}.

(** The items of a whole document of [count path] pages, in page order. *)
Definition document_pages (count : string → nat)
    (thumbs : string → Z → nat * nat) (path : string) : list PageItem :=
  (λ i, imported_item path i (thumbs path i))
    <$> Py.range 0 (Z.of_nat (count path)).

(** The state [a] with [items] appended to the collection and as many new
    frames appended to the row; every other field is that of [a]. *)
Definition extended (prov : Provider) (items : list PageItem) (a : App)
  : App :=
  set_lists (pages a ++ items)
    (page_frames a
       ++ (new_frame prov <$> seq (length (page_frames a)) (length items)))
    a.

(** The sources the log shows were opened, in order. *)
Definition opened_sources (l : list call) : list string :=
  omap (λ c, match c with OpenReader p => Some p | _ => None end) l.

(** The outputs the log shows [writer.write] was called on, in order. *)
Definition written_files (l : list call) : list string :=
  omap (λ c, match c with WriteFile p => Some p | _ => None end) l.

(** ** A sample provider *)

Module Demo.

(** Two documents, of two pages and of one; nothing else can be opened. *)
Definition provider : Provider :=
  {| fitz_open := λ path,
       if String.eqb path "a.pdf" then Ok 2%nat
       else if String.eqb path "b.pdf" then Ok 1%nat
       else Raise (FileNotFoundError path);
     render := λ path index, Ok (0%nat, 0%nat);
     new_frame := Sample.frame |}.

Definition all_imports : Imports :=
  {| has_fitz := true; has_Image := true; has_ImageTk := true;
     has_PdfReader := true; has_PdfWriter := true |}.

Definition no_fitz : Imports :=
  {| has_fitz := false; has_Image := true; has_ImageTk := true;
     has_PdfReader := true; has_PdfWriter := true |}.

Definition no_pypdf : Imports :=
  {| has_fitz := true; has_Image := true; has_ImageTk := true;
     has_PdfReader := false; has_PdfWriter := false |}.

(** Three imported pages, the middle one selected and anchored. *)
Definition three_pages : App :=
  {| pages := [Sample.A; Sample.B; Sample.C];
     page_frames := Sample.frame <$> [0; 1; 2]%nat;
     selected_indices := [1];
     last_clicked_index := Some 1;
     dragging := false;
     drag_start_index := None;
     drop_index := None;
     insert_bar := None |}.

(** The thumbnail label inside the second frame. *)
Definition thumb : widget := Child 99 (Sample.frame 1).

(** A disk on which every output can be written. *)
Definition writable : Disk :=
  {| open_wb := λ _, Ok (); write_pdf := λ _, Ok () |}.

(** A disk without the directory [nodir]: a path under it cannot be
    opened for writing. *)
Definition no_directory : Disk :=
  {| open_wb := λ path,
       if String.prefix "nodir/" path then Raise (FileNotFoundError path)
       else Ok ();
     write_pdf := λ _, Ok () |}.

(** Two pages, the first clicked and the second shift-clicked. *)
Definition range_selected : App :=
  {| pages := [Sample.A; Sample.B];
     page_frames := Sample.frame <$> [0; 1]%nat;
     selected_indices := [0; 1];
     last_clicked_index := Some 0;
     dragging := false;
     drag_start_index := Some 1;
     drop_index := None;
     insert_bar := None |}.

(** Two pages, the first pressed and the pointer moved over the second. *)
Definition mid_drag : App :=
  {| pages := [Sample.A; Sample.B];
     page_frames := Sample.frame <$> [0; 1]%nat;
     selected_indices := [0];
     last_clicked_index := Some 0;
     dragging := true;
     drag_start_index := Some 0;
     drop_index := Some 1;
     insert_bar := Some 120 |}.

(** Three pages of which the second has lost its source. *)
Definition lost_source : App :=
  set_lists [Sample.page "docX" 1 true; Sample.page "gone" 0 true;
             Sample.page "docY" 0 true]
    (Sample.frame <$> [0; 1; 2]%nat) init.

End Demo.

(** * Properties *)

(** ** Python's list operations *)

Section PyFacts.

Context {A : Type}.
Implicit Types (l : list A) (i : Z) (x : A).

Lemma subscript_ok l i :
  0 ≤ i < Py.len l → Py.subscript l i = Ok (Z.to_nat i).
Proof.
  intros Hi. unfold Py.subscript.
  destruct (Z.ltb_spec i 0); [lia|].
  destruct (Z.ltb_spec i 0); [lia|].
  destruct (Z.leb_spec (Py.len l) i); [lia|]. done.
Qed.

Lemma getitem_ok l i x :
  0 ≤ i → l !! Z.to_nat i = Some x → Py.getitem l i = Ok x.
Proof.
  intros Hi Hx. unfold Py.getitem.
  rewrite subscript_ok; [simpl; by rewrite Hx|].
  apply lookup_lt_Some in Hx. unfold Py.len. lia.
Qed.

Lemma getitem_last l x : Py.getitem (l ++ [x]) (-1) = Ok x.
Proof.
  unfold Py.getitem, Py.subscript.
  assert (Py.len (l ++ [x]) = Z.of_nat (length l) + 1) as ->
    by (unfold Py.len; rewrite length_app; simpl; lia).
  change (-1 <? 0) with true. simpl.
  set (n := Z.of_nat (length l)).
  destruct (Z.ltb_spec (-1 + (n + 1)) 0); [lia|].
  destruct (Z.leb_spec (n + 1) (-1 + (n + 1))); [lia|].
  simpl. replace (Z.to_nat _) with (length l) by lia.
  by rewrite list_lookup_middle.
Qed.

Lemma delitem_ok l i :
  0 ≤ i < Py.len l → Py.delitem l i = Ok (delete (Z.to_nat i) l).
Proof. intros Hi. unfold Py.delitem. by rewrite subscript_ok. Qed.

Lemma pop_ok l i :
  0 ≤ i < Py.len l →
  ∃ x, Py.pop l i = Ok (x, delete (Z.to_nat i) l).
Proof.
  intros Hi. unfold Py.pop.
  destruct (lookup_lt_is_Some_2 l (Z.to_nat i)) as [x Hx];
    [unfold Py.len in Hi; lia|].
  exists x. rewrite (getitem_ok l i x) by (done || lia). simpl.
  by rewrite delitem_ok.
Qed.

(** An insertion at a position of the list lands exactly there. *)
Lemma insert_at l1 l2 x :
  Py.insert (l1 ++ l2) (Py.len l1) x = l1 ++ x :: l2.
Proof.
  unfold Py.insert, Py.len.
  destruct (Z.ltb_spec (Z.of_nat (length l1)) 0); [lia|].
  rewrite length_app.
  replace (Z.to_nat _) with (length l1) by lia.
  by rewrite take_app_length, drop_app_length.
Qed.

Context `{EqDecision A}.

Lemma index_ok l x :
  x ∈ l → ∃ i, Py.index l x = Ok i ∧ 0 ≤ i < Py.len l.
Proof.
  unfold Py.len. induction l as [|y l IH]; intros Hx.
  - by apply elem_of_nil in Hx.
  - simpl. destruct (decide (y = x)) as [->|Hne].
    + exists 0. split; [done|]. simpl; lia.
    + apply elem_of_cons in Hx as [->|Hx]; [done|].
      destruct (IH Hx) as (i & -> & Hi). exists (1 + i).
      split; [done|]. simpl; lia.
Qed.

Lemma remove_ok l x :
  x ∈ l →
  ∃ r, Py.remove l x = Ok r ∧ r ⊆ l ∧
       (NoDup l → NoDup r ∧ ∀ p, p ∈ r ↔ p ∈ l ∧ p ≠ x).
Proof.
  induction l as [|y l IH]; intros Hx.
  - by apply elem_of_nil in Hx.
  - simpl. destruct (decide (y = x)) as [->|Hne].
    + exists l. split; [done|]. split; [set_solver|].
      intros [Hn Hd]%NoDup_cons. split; [done|].
      intros p. rewrite elem_of_cons. naive_solver.
    + apply elem_of_cons in Hx as [->|Hx]; [done|].
      destruct (IH Hx) as (r & -> & Hsub & Hr). exists (y :: r).
      split; [done|]. split; [set_solver|].
      intros [Hn Hd]%NoDup_cons. destruct (Hr Hd) as [Hdr Hiff].
      split.
      * apply NoDup_cons. split; [|done]. intros Hy. by apply Hn, Hsub.
      * intros p. rewrite !elem_of_cons, Hiff. naive_solver.
Qed.

End PyFacts.

Lemma elem_of_range a b p : p ∈ Py.range a b ↔ a ≤ p < b.
Proof.
  unfold Py.range. rewrite list_elem_of_fmap. split.
  - intros (k & -> & Hk). apply elem_of_seq in Hk. lia.
  - intros Hp. exists (Z.to_nat (p - a)). split; [lia|].
    apply elem_of_seq. lia.
Qed.

Lemma NoDup_range a b : NoDup (Py.range a b).
Proof.
  unfold Py.range. apply NoDup_fmap_2; [|apply NoDup_seq].
  intros j k Hjk. lia.
Qed.

Lemma length_range a b : length (Py.range a b) = Z.to_nat (b - a).
Proof. unfold Py.range. by rewrite length_fmap, length_seq. Qed.

Lemma sorted_perm l : Py.sorted l ≡ₚ l.
Proof. apply merge_sort_Permutation. Qed.

Lemma sorted_Sorted l : Sorted Z.le (Py.sorted l).
Proof. apply (Sorted_merge_sort Z.le). Qed.

Lemma elem_of_sorted l p : p ∈ Py.sorted l ↔ p ∈ l.
Proof. by rewrite sorted_perm. Qed.

Lemma length_sorted l : length (Py.sorted l) = length l.
Proof. by rewrite sorted_perm. Qed.

(** ** Enumerations and the two halves of a selection *)

Section Halves.

Context {A : Type}.
Implicit Types (l : list A) (sel : list Z) (i k : Z).

Lemma enumerate_from_cons k x l :
  Py.enumerate_from k (x :: l) = (k, x) :: Py.enumerate_from (k + 1) l.
Proof.
  unfold Py.enumerate_from. rewrite imap_cons. f_equal.
  - f_equal. lia.
  - apply imap_ext. intros j y _. simpl. f_equal. lia.
Qed.

Lemma enumerate_from_app k l1 l2 :
  Py.enumerate_from k (l1 ++ l2)
  = Py.enumerate_from k l1 ++ Py.enumerate_from (k + Py.len l1) l2.
Proof.
  unfold Py.enumerate_from, Py.len. rewrite imap_app. f_equal.
  apply imap_ext. intros j y _. simpl. f_equal. lia.
Qed.

Lemma elem_of_enumerate_from k l e :
  e ∈ Py.enumerate_from k l → k ≤ e.1 < k + Py.len l.
Proof.
  unfold Py.enumerate_from, Py.len.
  intros (j & y & -> & Hy)%elem_of_lookup_imap.
  apply lookup_lt_Some in Hy. simpl. lia.
Qed.

Lemma fmap_snd_enumerate_from k l : (Py.enumerate_from k l).*2 = l.
Proof.
  revert k. induction l as [|x l IH]; intros k; [done|].
  rewrite enumerate_from_cons. simpl. by rewrite IH.
Qed.

End Halves.

Lemma filter_ext_in {B} (P Q : B → Prop)
    `{∀ x, Decision (P x)} `{∀ x, Decision (Q x)} (l : list B) :
  (∀ x, x ∈ l → P x ↔ Q x) → filter P l = filter Q l.
Proof.
  induction l as [|x l IH]; intros Hl; [done|].
  rewrite !filter_cons.
  rewrite IH by (intros y Hy; apply Hl; by right).
  destruct (decide (P x)) as [HP|HP], (decide (Q x)) as [HQ|HQ];
    try done; exfalso; apply (Hl x) in HP || apply (Hl x) in HQ;
    (done || by left).
Qed.

Lemma filter_all {B} (P : B → Prop) `{∀ x, Decision (P x)} (l : list B) :
  (∀ x, x ∈ l → P x) → filter P l = l.
Proof.
  induction l as [|x l IH]; intros Hl; [done|].
  rewrite filter_cons_True by (apply Hl; by left).
  rewrite IH; [done|]. intros y Hy. apply Hl. by right.
Qed.

Lemma filter_none {B} (P : B → Prop) `{∀ x, Decision (P x)} (l : list B) :
  (∀ x, x ∈ l → ¬ P x) → filter P l = [].
Proof.
  induction l as [|x l IH]; intros Hl; [done|].
  rewrite filter_cons_False by (apply Hl; by left).
  apply IH. intros y Hy. apply Hl. by right.
Qed.

Section Relocation.

Context {A : Type}.
Implicit Types (l : list A) (sel : list Z) (i k : Z).

(** Taking the least selected position out of the kept items deletes the
    item standing there. *)
Lemma kept_from_cons k i sel l :
  (∀ j, j ∈ sel → i < j) → k ≤ i < k + Py.len l →
  (filter (λ e, e.1 ∉ i :: sel) (Py.enumerate_from k l)).*2
  = delete (Z.to_nat (i - k))
      (filter (λ e, e.1 ∉ sel) (Py.enumerate_from k l)).*2.
Proof.
  intros Hsel. revert k. induction l as [|x l IH]; intros k Hi.
  { unfold Py.len in Hi. simpl in Hi. lia. }
  rewrite enumerate_from_cons.
  assert (k ∉ sel) as Hk by (intros Hk%Hsel; lia).
  rewrite (filter_cons_True (λ e, e.1 ∉ sel)) by done.
  destruct (decide (i = k)) as [->|Hne].
  - rewrite filter_cons_False by (simpl; set_solver).
    replace (Z.to_nat (k - k)) with 0%nat by lia. simpl. f_equal.
    apply filter_ext_in. intros e He%elem_of_enumerate_from.
    rewrite not_elem_of_cons. split; [tauto|]. intros ?. split; [lia|done].
  - rewrite filter_cons_True.
    2:{ simpl. rewrite not_elem_of_cons. split; [lia|done]. }
    replace (Z.to_nat (i - k)) with (S (Z.to_nat (i - (k + 1)))) by lia.
    simpl. f_equal. apply IH. unfold Py.len in *. simpl in Hi. lia.
Qed.

(** The least selected position contributes the first moved item. *)
Lemma moved_from_cons k i sel l x :
  (∀ j, j ∈ sel → i < j) → k ≤ i → l !! Z.to_nat (i - k) = Some x →
  (filter (λ e, e.1 ∈ i :: sel) (Py.enumerate_from k l)).*2
  = x :: (filter (λ e, e.1 ∈ sel) (Py.enumerate_from k l)).*2.
Proof.
  intros Hsel. revert k. induction l as [|y l IH]; intros k Hi Hx; [done|].
  rewrite enumerate_from_cons.
  assert (k ∉ sel) as Hk by (intros Hk%Hsel; lia).
  rewrite (filter_cons_False (λ e, e.1 ∈ sel)) by done.
  destruct (decide (i = k)) as [->|Hne].
  - rewrite filter_cons_True by (simpl; set_solver).
    replace (Z.to_nat (k - k)) with 0%nat in Hx by lia.
    simpl in Hx. injection Hx as ->. simpl. f_equal. f_equal.
    apply filter_ext_in. intros e He%elem_of_enumerate_from.
    rewrite elem_of_cons. split; [|tauto]. intros [?|?]; [lia|done].
  - rewrite filter_cons_False.
    2:{ simpl. rewrite elem_of_cons. intros [?|?]; [lia|done]. }
    replace (Z.to_nat (i - k)) with (S (Z.to_nat (i - (k + 1)))) in Hx by lia.
    simpl in Hx. apply IH; [lia|done].
Qed.

Lemma kept_nil l : kept l [] = l.
Proof.
  unfold kept, Py.enumerate.
  rewrite filter_all by (intros; apply not_elem_of_nil).
  apply fmap_snd_enumerate_from.
Qed.

Lemma moved_nil l : moved l [] = [].
Proof.
  unfold moved.
  by rewrite filter_none by (intros; apply not_elem_of_nil).
Qed.

Lemma kept_cons i sel l :
  (∀ j, j ∈ sel → i < j) → 0 ≤ i < Py.len l →
  kept l (i :: sel) = delete (Z.to_nat i) (kept l sel).
Proof.
  intros Hsel Hi. unfold kept, Py.enumerate.
  rewrite kept_from_cons by (done || lia). by rewrite Z.sub_0_r.
Qed.

Lemma moved_cons i sel l x :
  (∀ j, j ∈ sel → i < j) → 0 ≤ i → l !! Z.to_nat i = Some x →
  moved l (i :: sel) = x :: moved l sel.
Proof.
  intros Hsel Hi Hx. unfold moved, Py.enumerate.
  apply moved_from_cons; [done|lia|by rewrite Z.sub_0_r].
Qed.

(** The two halves only look at which positions are selected. *)
Lemma kept_proper l sel sel' :
  (∀ p, p ∈ sel ↔ p ∈ sel') → kept l sel = kept l sel'.
Proof.
  intros Hs. unfold kept. f_equal. apply filter_ext_in.
  intros e _. by rewrite Hs.
Qed.

Lemma moved_proper l sel sel' :
  (∀ p, p ∈ sel ↔ p ∈ sel') → moved l sel = moved l sel'.
Proof.
  intros Hs. unfold moved. f_equal. apply filter_ext_in.
  intros e _. by rewrite Hs.
Qed.

(** Together they hold every item once. *)
Lemma kept_moved_perm l sel : kept l sel ++ moved l sel ≡ₚ l.
Proof.
  unfold kept, moved. rewrite <- fmap_app.
  rewrite (Permutation_app_comm _ _).
  rewrite (filter_app_complement (λ e, e.1 ∈ sel)).
  unfold Py.enumerate. by rewrite fmap_snd_enumerate_from.
Qed.

Lemma length_kept_moved l sel :
  (length (kept l sel) + length (moved l sel) = length l)%nat.
Proof. by rewrite <- length_app, kept_moved_perm. Qed.

End Relocation.

(** ** Loops *)

Lemma for_each_app {B S} (xs ys : list B) (body : S → B → result S) acc :
  for_each (xs ++ ys) body acc
  = (acc' ← for_each xs body acc ; for_each ys body acc').
Proof.
  revert acc. induction xs as [|x xs IH]; intros acc; [done|].
  simpl. destruct (body acc x) as [acc'|e]; simpl; [apply IH|done].
Qed.

Lemma comprehension_length {B C} (f : B → result C) xs ys :
  comprehension f xs = Ok ys → length ys = length xs.
Proof.
  revert ys. induction xs as [|x xs IH]; intros ys; simpl.
  - by intros [= <-].
  - destruct (f x) as [y|e]; simpl; [|done].
    destruct (comprehension f xs) as [ys'|e]; simpl; [|done].
    intros [= <-]. simpl. f_equal. by apply IH.
Qed.

(** ** Selections as sorted lists of distinct positions *)

Lemma NoDup_bounded_length (s : list Z) a b :
  NoDup s → Forall (λ p, a ≤ p < b) s →
  Z.of_nat (length s) ≤ Z.max 0 (b - a).
Proof.
  intros Hnd Hs.
  assert (s ⊆+ seqZ a (b - a)) as Hsub.
  { apply NoDup_submseteq; [done|]. intros p Hp.
    rewrite Forall_forall in Hs. apply Hs in Hp.
    apply elem_of_seqZ. lia. }
  apply submseteq_length in Hsub. rewrite length_seqZ in Hsub. lia.
Qed.

Lemma strictly_sorted (s : list Z) :
  Sorted Z.le s → NoDup s → StronglySorted Z.lt s.
Proof.
  intros Hs%Sorted_StronglySorted; [|intros x y z; lia].
  induction Hs as [|i s Hs IH Hle]; intros Hnd; [constructor|].
  apply NoDup_cons in Hnd as [Hi Hnd]. constructor; [by apply IH|].
  rewrite Forall_forall in Hle |- *. intros j Hj.
  specialize (Hle j Hj). assert (i ≠ j) by (intros ->; done). lia.
Qed.

Lemma sorted_strictly (sel : list Z) :
  NoDup sel → StronglySorted Z.lt (Py.sorted sel).
Proof.
  intros Hnd. apply strictly_sorted; [apply sorted_Sorted|].
  by rewrite sorted_perm.
Qed.

Lemma in_range_sorted N sel : in_range N sel → in_range N (Py.sorted sel).
Proof. unfold in_range. by rewrite sorted_perm. Qed.

Lemma strictly_sorted_NoDup (s : list Z) : StronglySorted Z.lt s → NoDup s.
Proof.
  induction 1 as [|i s Hs IH Hlt]; constructor; [|done].
  intros Hi. rewrite Forall_forall in Hlt. specialize (Hlt i Hi). lia.
Qed.

Section RelocationLoops.

Context {A : Type}.
Implicit Types (l : list A) (s : list Z).

(** [[l[i] for i in s]] reads the moved items. *)
Lemma comprehension_moved l s :
  StronglySorted Z.lt s → in_range (Py.len l) s →
  comprehension (Py.getitem l) s = Ok (moved l s).
Proof.
  induction 1 as [|i s Hs IH Hlt]; intros Hr.
  - by rewrite moved_nil.
  - apply Forall_cons in Hr as [Hi Hr]. simpl.
    destruct (lookup_lt_is_Some_2 l (Z.to_nat i)) as [x Hx];
      [unfold Py.len in Hi; lia|].
    rewrite (getitem_ok l i x) by (done || lia). simpl.
    rewrite IH by done. simpl. f_equal. symmetry.
    apply moved_cons; [|lia|done].
    intros j Hj. rewrite Forall_forall in Hlt. by apply Hlt.
Qed.

Lemma length_moved l s :
  StronglySorted Z.lt s → in_range (Py.len l) s →
  length (moved l s) = length s.
Proof.
  intros Hs Hr. eapply comprehension_length, comprehension_moved; done.
Qed.

Lemma length_kept l s :
  StronglySorted Z.lt s → in_range (Py.len l) s →
  Py.len (kept l s) = Py.len l - Py.len s.
Proof.
  intros Hs Hr. pose proof (length_kept_moved l s) as Hlen.
  rewrite length_moved in Hlen by done. unfold Py.len. lia.
Qed.

(** Room is left below the least selected position. *)
Lemma kept_room l i s :
  StronglySorted Z.lt (i :: s) → in_range (Py.len l) (i :: s) →
  0 ≤ i < Py.len (kept l s).
Proof.
  intros Hs Hr. apply StronglySorted_inv in Hs as [Hs Hlt].
  apply Forall_cons in Hr as [Hi Hr].
  rewrite length_kept by done.
  assert (Z.of_nat (length s) ≤ Z.max 0 (Py.len l - (i + 1))).
  { apply NoDup_bounded_length; [by apply strictly_sorted_NoDup|].
    unfold in_range in Hr. rewrite Forall_forall in Hlt, Hr |- *.
    intros p Hp. specialize (Hlt p Hp). specialize (Hr p Hp). lia. }
  unfold Py.len in *. lia.
Qed.

End RelocationLoops.

(** The removal loop leaves the kept pages and frames. *)
Lemma remove_selected_ok s ps fs :
  length fs = length ps →
  StronglySorted Z.lt s → in_range (Py.len ps) s →
  remove_selected s (ps, fs) = Ok (kept ps s, kept fs s).
Proof.
  intros Hlen Hs. unfold remove_selected.
  induction Hs as [|i s Hs IH Hlt]; intros Hr.
  - simpl. by rewrite !kept_nil.
  - rewrite reverse_cons, for_each_app.
    pose proof (kept_room ps i s) as Hp.
    pose proof (kept_room fs i s) as Hf.
    assert (Py.len fs = Py.len ps) as Hlen' by (unfold Py.len; lia).
    rewrite Hlen' in Hf.
    specialize (Hp ltac:(by constructor) Hr).
    specialize (Hf ltac:(by constructor) Hr).
    apply Forall_cons in Hr as [Hi Hr].
    rewrite IH by done. simpl.
    rewrite delitem_ok by done. simpl.
    destruct (pop_ok (kept fs s) i Hf) as [f ->]. simpl.
    rewrite Forall_forall in Hlt.
    rewrite !kept_cons; try done; unfold Py.len in *; lia.
Qed.

(** The insertion loop puts the moved items in as one run. *)
Lemma insert_moved_from dest k mp mf
    (pre_p post_p : list PageItem) (pre_f post_f : list widget) :
  length mf = length mp →
  dest + k = Py.len pre_p → Py.len pre_f = Py.len pre_p →
  foldl
    (λ '(ps, fs) '(offset, (p, f)),
       (Py.insert ps (dest + offset) p, Py.insert fs (dest + offset) f))
    (pre_p ++ post_p, pre_f ++ post_f)
    (Py.enumerate_from k (zip mp mf))
  = (pre_p ++ mp ++ post_p, pre_f ++ mf ++ post_f).
Proof.
  revert mf k pre_p pre_f.
  induction mp as [|p mp IH]; intros [|f mf] k pre_p pre_f Hlen Hk Hpre;
    try done.
  simpl zip. rewrite enumerate_from_cons. simpl foldl.
  rewrite !Hk, insert_at, <- Hpre, insert_at.
  rewrite !(cons_middle _ _ post_p), !(cons_middle _ _ post_f), !app_assoc.
  rewrite IH.
  - by rewrite <- !app_assoc.
  - simpl in Hlen. lia.
  - unfold Py.len in *. rewrite length_app. simpl. lia.
  - unfold Py.len in *. rewrite !length_app. simpl. lia.
Qed.

Lemma insert_moved_ok dest mp mf (kp : list PageItem) (kf : list widget) :
  length mf = length mp → length kf = length kp →
  0 ≤ dest ≤ Py.len kp →
  insert_moved dest mp mf (kp, kf)
  = (take (Z.to_nat dest) kp ++ mp ++ drop (Z.to_nat dest) kp,
     take (Z.to_nat dest) kf ++ mf ++ drop (Z.to_nat dest) kf).
Proof.
  intros Hm Hk Hd. unfold insert_moved, Py.enumerate.
  rewrite <- (take_drop (Z.to_nat dest) kp) at 1.
  rewrite <- (take_drop (Z.to_nat dest) kf) at 1.
  apply insert_moved_from; [done| |];
    unfold Py.len in *; rewrite ?length_take; lia.
Qed.

(** ** The adjusted destination *)

Lemma removed_before_count sel d : removed_before sel d = count_before sel d.
Proof.
  unfold removed_before, count_before, Py.len.
  induction (filter _ sel) as [|p l IH]; [done|].
  rewrite fmap_cons. cbn [foldr length]. lia.
Qed.

Lemma count_before_sorted sel d :
  count_before (Py.sorted sel) d = count_before sel d.
Proof. unfold count_before, Py.len. by rewrite sorted_perm. Qed.

Lemma count_before_bounds N sel d :
  NoDup sel → in_range N sel → 0 ≤ d ≤ N →
  0 ≤ d - count_before sel d ≤ N - Py.len sel.
Proof.
  intros Hnd Hr Hd. unfold count_before, in_range, Py.len in *.
  rewrite Forall_forall in Hr.
  pose proof (filter_app_complement (λ p, p < d) sel) as Hperm.
  apply Permutation_length in Hperm. rewrite length_app in Hperm.
  assert (Z.of_nat (length (filter (λ p, p < d) sel)) ≤ Z.max 0 (d - 0)).
  { apply NoDup_bounded_length; [by apply NoDup_filter|].
    apply Forall_forall. intros p [Hp Hin]%list_elem_of_filter.
    specialize (Hr p Hin). lia. }
  assert (Z.of_nat (length (filter (λ p, ¬ p < d) sel)) ≤ Z.max 0 (N - d)).
  { apply NoDup_bounded_length; [by apply NoDup_filter|].
    apply Forall_forall. intros p [Hp Hin]%list_elem_of_filter.
    specialize (Hr p Hin). lia. }
  lia.
Qed.

Lemma adjusted_dest_unclamped N sel d :
  NoDup sel → in_range N sel → 0 ≤ d ≤ N →
  adjusted_dest (Py.sorted sel) d = d - count_before sel d.
Proof.
  intros Hnd Hr Hd. unfold adjusted_dest.
  rewrite removed_before_count, count_before_sorted.
  pose proof (count_before_bounds N sel d Hnd Hr Hd).
  destruct (Z.ltb_spec (d - count_before sel d) 0); [lia|done].
Qed.

(** ** A run inside a list *)

Section Runs.

Context {A : Type}.
Implicit Types pre mid post : list A.

Lemma moved_run pre mid post :
  moved (pre ++ mid ++ post)
    (Py.range (Py.len pre) (Py.len pre + Py.len mid)) = mid.
Proof.
  unfold moved, Py.enumerate.
  rewrite !enumerate_from_app, !filter_app, !fmap_app.
  rewrite (filter_none _ (Py.enumerate_from 0 pre)).
  2:{ intros e He%elem_of_enumerate_from. rewrite elem_of_range. lia. }
  rewrite (filter_all _ (Py.enumerate_from _ mid)).
  2:{ intros e He%elem_of_enumerate_from. rewrite elem_of_range. lia. }
  rewrite (filter_none _ (Py.enumerate_from _ post)).
  2:{ intros e He%elem_of_enumerate_from. rewrite elem_of_range. lia. }
  simpl. by rewrite app_nil_r, fmap_snd_enumerate_from.
Qed.

Lemma kept_run pre mid post :
  kept (pre ++ mid ++ post)
    (Py.range (Py.len pre) (Py.len pre + Py.len mid)) = pre ++ post.
Proof.
  unfold kept, Py.enumerate.
  rewrite !enumerate_from_app, !filter_app, !fmap_app.
  rewrite (filter_all _ (Py.enumerate_from 0 pre)).
  2:{ intros e He%elem_of_enumerate_from. rewrite elem_of_range. lia. }
  rewrite (filter_none _ (Py.enumerate_from _ mid)).
  2:{ intros e He%elem_of_enumerate_from. rewrite elem_of_range. lia. }
  rewrite (filter_all _ (Py.enumerate_from _ post)).
  2:{ intros e He%elem_of_enumerate_from. rewrite elem_of_range. lia. }
  simpl. by rewrite !fmap_snd_enumerate_from.
Qed.

End Runs.

(** ** The release handler *)

Lemma hide_insert_bar_fields a :
  pages (_hide_insert_bar a) = pages a
  ∧ page_frames (_hide_insert_bar a) = page_frames a
  ∧ selected_indices (_hide_insert_bar a) = selected_indices a
  ∧ last_clicked_index (_hide_insert_bar a) = last_clicked_index a
  ∧ dragging (_hide_insert_bar a) = dragging a
  ∧ drag_start_index (_hide_insert_bar a) = drag_start_index a
  ∧ drop_index (_hide_insert_bar a) = drop_index a
  ∧ insert_bar (_hide_insert_bar a) = None.
Proof.
  unfold _hide_insert_bar. by destruct (insert_bar a) eqn:Hbar.
Qed.

(** On a drag of a non-empty selection of distinct positions, the handler
    returns the state with pages and frames relocated. *)
Lemma on_release_relocates event frame a d :
  length (page_frames a) = length (pages a) →
  dragging a = true → drop_index a = Some d →
  selected_indices a ≠ [] → NoDup (selected_indices a) →
  in_range (Py.len (pages a)) (selected_indices a) →
  0 ≤ d ≤ Py.len (pages a) →
  let sel := selected_indices a in
  let dest := d - count_before sel d in
  _on_release event frame a
  = Ok (set_drag false None None
          (set_selected_indices (Py.range dest (dest + Py.len sel))
             (set_lists (relocated (pages a) sel dest)
                (relocated (page_frames a) sel dest)
                (_hide_insert_bar a)))).
Proof.
  intros Hlock Hdrag Hdrop Hne Hnd Hr Hd sel dest. subst sel dest.
  destruct (hide_insert_bar_fields a) as (Hp & Hf & Hs & _).
  pose proof (count_before_bounds _ _ _ Hnd Hr Hd) as Hdest.
  pose proof (sorted_strictly _ Hnd) as Hsorted.
  pose proof (in_range_sorted _ _ Hr) as Hrs.
  assert (in_range (Py.len (page_frames a))
            (Py.sorted (selected_indices a))) as Hrf.
  { unfold Py.len in *. by rewrite Hlock. }
  unfold _on_release. rewrite Hdrag, Hdrop. cbv zeta.
  rewrite Hp, Hf, Hs.
  destruct (Py.sorted (selected_indices a)) as [|i s] eqn:Hsel.
  { exfalso. apply Hne. apply Permutation_nil_r.
    rewrite <- Hsel. symmetry. apply sorted_perm. }
  rewrite <- Hsel in Hsorted, Hrs, Hrf |- *. clear i s Hsel.
  rewrite (adjusted_dest_unclamped _ _ _ Hnd Hr Hd).
  rewrite !comprehension_moved by done. simpl.
  rewrite remove_selected_ok by done. simpl.
  rewrite insert_moved_ok.
  - unfold relocated.
    rewrite !(kept_proper _ (Py.sorted (selected_indices a))
                (selected_indices a)) by apply elem_of_sorted.
    rewrite !(moved_proper _ (Py.sorted (selected_indices a))
                (selected_indices a)) by apply elem_of_sorted.
    unfold Py.len. by rewrite length_sorted.
  - by rewrite !length_moved.
  - pose proof (length_kept (pages a) _ Hsorted Hrs).
    pose proof (length_kept (page_frames a) _ Hsorted Hrf).
    unfold Py.len in *. lia.
  - rewrite length_kept by done. unfold Py.len in *.
    rewrite length_sorted. lia.
Qed.

Ltac by_computing := apply (bool_decide_unpack _); vm_compute; exact I.

Section Selections.

Context {A : Type}.
Implicit Types (l : list A) (sel : list Z).

Lemma length_moved_sel l sel :
  NoDup sel → in_range (Py.len l) sel → Py.len (moved l sel) = Py.len sel.
Proof.
  intros Hnd Hr.
  rewrite <- (moved_proper l (Py.sorted sel) sel) by apply elem_of_sorted.
  unfold Py.len.
  rewrite length_moved by eauto using sorted_strictly, in_range_sorted.
  by rewrite length_sorted.
Qed.

Lemma length_kept_sel l sel :
  NoDup sel → in_range (Py.len l) sel →
  Py.len (kept l sel) = Py.len l - Py.len sel.
Proof.
  intros Hnd Hr. pose proof (length_kept_moved l sel) as Hlen.
  pose proof (length_moved_sel l sel Hnd Hr). unfold Py.len in *. lia.
Qed.

Lemma relocated_perm l sel dest : relocated l sel dest ≡ₚ l.
Proof.
  unfold relocated.
  rewrite (Permutation_app_comm (moved l sel)), app_assoc, take_drop.
  apply kept_moved_perm.
Qed.

(** In the relocated list the moved items are those at the positions
    [range(dest, dest + |sel|)], and the kept ones are the others. *)
Lemma relocated_halves l sel dest :
  NoDup sel → in_range (Py.len l) sel →
  0 ≤ dest ≤ Py.len l - Py.len sel →
  let run := Py.range dest (dest + Py.len sel) in
  moved (relocated l sel dest) run = moved l sel
  ∧ kept (relocated l sel dest) run = kept l sel.
Proof.
  intros Hnd Hr Hd run. subst run.
  pose proof (length_kept_sel l sel Hnd Hr) as Hk.
  pose proof (length_moved_sel l sel Hnd Hr) as Hm.
  assert (dest = Py.len (take (Z.to_nat dest) (kept l sel))) as Hpre.
  { unfold Py.len in *. rewrite length_take. lia. }
  unfold relocated.
  set (pre := take (Z.to_nat dest) (kept l sel)) in *.
  set (post := drop (Z.to_nat dest) (kept l sel)).
  rewrite <- Hm, Hpre, moved_run, kept_run.
  subst pre post. by rewrite take_drop.
Qed.

(** A run dropped on itself stays where it is. *)
Lemma relocated_contiguous l sel s k :
  0 ≤ s → 0 ≤ k → s + k ≤ Py.len l →
  (∀ p, p ∈ sel ↔ s ≤ p < s + k) →
  relocated l sel s = l.
Proof.
  intros Hs Hk Hl Hsel.
  set (pre := take (Z.to_nat s) l).
  set (mid := take (Z.to_nat k) (drop (Z.to_nat s) l)).
  set (post := drop (Z.to_nat k) (drop (Z.to_nat s) l)).
  assert (l = pre ++ mid ++ post) as Hsplit
    by (subst pre mid post; by rewrite !take_drop).
  assert (Py.len pre = s) as Hpre
    by (subst pre; unfold Py.len in *; rewrite length_take; lia).
  assert (Py.len mid = k) as Hmid.
  { subst mid. unfold Py.len in *. rewrite length_take, length_drop. lia. }
  assert (∀ p, p ∈ sel ↔ p ∈ Py.range (Py.len pre) (Py.len pre + Py.len mid))
    as Hrun by (intros p; rewrite elem_of_range, Hsel; lia).
  unfold relocated.
  rewrite (kept_proper l _ _ Hrun), (moved_proper l _ _ Hrun).
  rewrite Hsplit at 1 2 3. rewrite kept_run, moved_run. rewrite <- Hpre.
  unfold Py.len. rewrite Nat2Z.id.
  by rewrite take_app_length, drop_app_length.
Qed.

End Selections.

Lemma count_before_run sel s k d :
  sel ≡ₚ Py.range s (s + k) → s ≤ d ≤ s + k →
  count_before sel d = d - s.
Proof.
  intros Hsel Hd. unfold count_before, Py.len. rewrite Hsel.
  assert (filter (λ p, p < d) (Py.range s (s + k)) ≡ₚ Py.range s d) as ->.
  { apply NoDup_Permutation;
      [apply NoDup_filter, NoDup_range|apply NoDup_range|].
    intros p. rewrite list_elem_of_filter, !elem_of_range. lia. }
  rewrite length_range. lia.
Qed.

(** ** Relocation *)

(** C1: for a collection of N pages, a non-empty selection of distinct
    positions in [0,N) and a drop index d in [0,N], the release handler
    returns, and with dest = d - |{p in S : p < d}| the new collection is
    the kept items with the moved ones inserted as a run before position
    dest: the moved items, in their old relative order, are exactly those
    at positions range(dest, dest+|S|); the others keep their relative
    order; the collection is a permutation of the old one; the frames move
    in lock-step; and the selection becomes that range. *)
Theorem relocation_postcondition event frame a d :
  length (page_frames a) = length (pages a) →
  dragging a = true → drop_index a = Some d →
  selected_indices a ≠ [] → NoDup (selected_indices a) →
  in_range (Py.len (pages a)) (selected_indices a) →
  0 ≤ d ≤ Py.len (pages a) →
  let sel := selected_indices a in
  let dest := d - count_before sel d in
  let run := Py.range dest (dest + Py.len sel) in
  ∃ a', _on_release event frame a = Ok a'
    ∧ pages a' = relocated (pages a) sel dest
    ∧ moved (pages a') run = moved (pages a) sel
    ∧ kept (pages a') run = kept (pages a) sel
    ∧ pages a' ≡ₚ pages a
    ∧ in_range (Py.len (pages a')) run
    ∧ page_frames a' = relocated (page_frames a) sel dest
    ∧ selected_indices a' = run.
Proof.
  intros Hlock Hdrag Hdrop Hne Hnd Hr Hd sel dest run.
  pose proof (count_before_bounds _ _ _ Hnd Hr Hd) as Hdest.
  eexists. split; [by apply on_release_relocates|]. simpl.
  destruct (hide_insert_bar_fields a) as (_ & _ & _ & _).
  destruct (relocated_halves (pages a) sel dest Hnd Hr Hdest) as [Hm Hk].
  repeat split; try done.
  - apply relocated_perm.
  - apply Forall_forall. intros p Hp%elem_of_range.
    unfold Py.len in *. rewrite relocated_perm. subst dest sel. lia.
Qed.

Lemma relocation_postcondition_witness :
  ∃ a', _on_release (Sample.plain 0) (Sample.frame 3) Sample.dragging_BD
        = Ok a'
    ∧ pages a' = [Sample.A; Sample.B; Sample.D; Sample.C]
    ∧ selected_indices a' = [1; 2].
Proof.
  destruct (relocation_postcondition (Sample.plain 0) (Sample.frame 3)
              Sample.dragging_BD 1)
    as (a' & Hrun & Hpages & _ & _ & _ & _ & _ & Hsel);
    [reflexivity|reflexivity|reflexivity|discriminate
    |by_computing|by_computing|vm_compute; split; discriminate|].
  exists a'. split; [exact Hrun|]. split; [exact Hpages|exact Hsel].
Defined.

(** C10: for every drop index d in [0,N] and every selection of distinct
    positions in [0,N), the adjusted destination d - |{p in S : p < d}|
    lies in [0, N - |S|] as it is; so the guard at zero of the handler
    leaves it alone, the removal loop succeeds and leaves N - |S| items,
    and each insertion of the moved run goes to a position of the list
    it is made into. *)
Theorem adjustment_needs_no_clamp
    (ps : list PageItem) (fs : list widget) (sel : list Z) (d : Z) :
  length fs = length ps →
  NoDup sel → in_range (Py.len ps) sel → 0 ≤ d ≤ Py.len ps →
  let dest := d - removed_before (Py.sorted sel) d in
  dest = d - count_before sel d
  ∧ 0 ≤ dest ≤ Py.len ps - Py.len sel
  ∧ adjusted_dest (Py.sorted sel) d = dest
  ∧ ∃ kp kf,
      remove_selected (Py.sorted sel) (ps, fs) = Ok (kp, kf)
      ∧ Py.len kp = Py.len ps - Py.len sel
      ∧ Py.len kf = Py.len ps - Py.len sel
      ∧ ∀ k : nat, (k < length sel)%nat →
          let done :=
            insert_moved dest (take k (moved ps sel)) (take k (moved fs sel))
              (kp, kf) in
          0 ≤ dest + Z.of_nat k ≤ Py.len done.1
          ∧ 0 ≤ dest + Z.of_nat k ≤ Py.len done.2.
Proof.
  intros Hlock Hnd Hr Hd dest. subst dest.
  rewrite removed_before_count, count_before_sorted.
  pose proof (count_before_bounds _ _ _ Hnd Hr Hd) as Hdest.
  assert (in_range (Py.len fs) sel) as Hrf
    by (unfold Py.len in *; by rewrite Hlock).
  split; [done|]. split; [done|].
  split; [exact (adjusted_dest_unclamped _ _ _ Hnd Hr Hd)|].
  exists (kept ps (Py.sorted sel)), (kept fs (Py.sorted sel)).
  rewrite !(kept_proper _ (Py.sorted sel) sel) by apply elem_of_sorted.
  pose proof (length_kept_sel ps sel Hnd Hr) as Hkp.
  pose proof (length_kept_sel fs sel Hnd Hrf) as Hkf.
  pose proof (length_moved_sel ps sel Hnd Hr) as Hmp.
  pose proof (length_moved_sel fs sel Hnd Hrf) as Hmf.
  split.
  { rewrite remove_selected_ok
      by eauto using sorted_strictly, in_range_sorted.
    by rewrite !(kept_proper _ (Py.sorted sel) sel) by apply elem_of_sorted. }
  split; [done|]. split; [unfold Py.len in *; lia|].
  intros k Hk. cbv zeta. rewrite insert_moved_ok; cycle 1.
  - unfold Py.len in *. rewrite !length_take. lia.
  - unfold Py.len in *. lia.
  - lia.
  - simpl. unfold Py.len in *.
    rewrite !length_app, !length_take, !length_drop. lia.
Qed.

Lemma adjustment_needs_no_clamp_witness :
  adjusted_dest (Py.sorted [3; 1]) 4 = 4 - removed_before (Py.sorted [3; 1]) 4
  ∧ 0 ≤ 4 - count_before [3; 1] 4 ≤ 4 - 2.
Proof.
  destruct (adjustment_needs_no_clamp (pages Sample.dragging_BD)
              (page_frames Sample.dragging_BD) [3; 1] 4)
    as (Heq & Hbounds & Hguard & _);
    [reflexivity|by_computing|by_computing|vm_compute; split; discriminate|].
  split; [exact Hguard|]. rewrite <- Heq. exact Hbounds.
Defined.

(** C2, as stated, fails: B and D are selected in [A, B, C, D] and dropped
    at index 1, the position of B; D is gathered next to B and the order
    changes. *)
Lemma noop_on_selected_position_counterexample :
  1 ∈ selected_indices Sample.dragging_BD
  ∧ drop_index Sample.dragging_BD = Some 1
  ∧ ∃ a', _on_release (Sample.plain 0) (Sample.frame 3) Sample.dragging_BD
          = Ok a'
      ∧ pages a' = [Sample.A; Sample.B; Sample.D; Sample.C]
      ∧ pages a' ≠ pages Sample.dragging_BD.
Proof.
  split; [by_computing|]. split; [reflexivity|].
  eexists. split; [reflexivity|]. split; [reflexivity|]. discriminate.
Qed.

(** C2, amended: when the selection is a contiguous run of positions
    s, ..., s+k-1 (k > 0), relocating it to a destination d that is one of
    its positions, or the position just after its last one, changes
    nothing in the order of the collection, and the run stays selected
    where it was. *)
Theorem noop_on_contiguous_run event frame a d s k :
  length (page_frames a) = length (pages a) →
  dragging a = true → drop_index a = Some d →
  selected_indices a ≡ₚ Py.range s (s + k) →
  0 < k → 0 ≤ s → s + k ≤ Py.len (pages a) →
  s ≤ d ≤ s + k →
  ∃ a', _on_release event frame a = Ok a'
    ∧ pages a' = pages a
    ∧ page_frames a' = page_frames a
    ∧ selected_indices a' = Py.range s (s + k).
Proof.
  intros Hlock Hdrag Hdrop Hsel Hk Hs Hl Hd.
  assert (∀ p, p ∈ selected_indices a ↔ s ≤ p < s + k) as Hin
    by (intros p; by rewrite Hsel, elem_of_range).
  assert (NoDup (selected_indices a)) as Hnd
    by (rewrite Hsel; apply NoDup_range).
  assert (Py.len (selected_indices a) = k) as Hlen
    by (unfold Py.len; rewrite Hsel, length_range; lia).
  assert (in_range (Py.len (pages a)) (selected_indices a)) as Hr.
  { apply Forall_forall. intros p Hp%Hin. lia. }
  assert (selected_indices a ≠ []) as Hne.
  { intros Hnil. rewrite Hnil in Hlen. unfold Py.len in Hlen.
    simpl in Hlen. lia. }
  eexists. split.
  { apply on_release_relocates; try done. lia. }
  rewrite (count_before_run _ s k d) by done.
  replace (d - (d - s)) with s by lia. simpl. rewrite Hlen.
  assert (s + k ≤ Py.len (page_frames a))
    by (unfold Py.len in *; lia).
  by rewrite !(relocated_contiguous _ _ s k) by (done || lia).
Qed.

Lemma noop_on_contiguous_run_witness :
  ∃ a', _on_release (Sample.plain 0) (Sample.frame 2) Sample.dragging_BC
        = Ok a'
    ∧ pages a' = pages Sample.dragging_BC
    ∧ selected_indices a' = [1; 2].
Proof.
  destruct (noop_on_contiguous_run (Sample.plain 0) (Sample.frame 2)
              Sample.dragging_BC 2 1 2)
    as (a' & Hrun & Hpages & _ & Hsel);
    [reflexivity|reflexivity|reflexivity|reflexivity
    |reflexivity|discriminate|discriminate
    |split; discriminate|].
  exists a'. split; [exact Hrun|]. split; [exact Hpages|exact Hsel].
Defined.

(** ** Clicks *)

Lemma walk_up_page_frame frames frame :
  frame ∈ frames → walk_up frames frame = Some frame.
Proof.
  intros Hin. unfold Py.contains.
  destruct frame; simpl; unfold Py.contains;
    by rewrite bool_decide_eq_true_2.
Qed.

Lemma index_of_page_frame a frame :
  frame ∈ page_frames a →
  ∃ index, _index_from_frame_or_child a frame = Ok index
    ∧ 0 ≤ index < Py.len (page_frames a).
Proof.
  intros Hin. unfold _index_from_frame_or_child.
  rewrite walk_up_page_frame by done. unfold Py.contains.
  rewrite bool_decide_eq_true_2 by done. by apply index_ok.
Qed.

Lemma walk_up_elem_of frames w current :
  walk_up frames w = Some current → current ∈ frames.
Proof.
  induction w as [n|n m IH]; simpl; unfold Py.contains;
    case_bool_decide; try done; naive_solver.
Qed.

(** The resolver always returns. *)
Lemma index_from_frame_total a w :
  ∃ index, _index_from_frame_or_child a w = Ok index.
Proof.
  unfold _index_from_frame_or_child.
  destruct (walk_up (page_frames a) w) as [current|] eqn:Hw; [|by eexists].
  apply walk_up_elem_of in Hw. unfold Py.contains.
  rewrite bool_decide_eq_true_2 by done.
  destruct (index_ok _ _ Hw) as (i & -> & _). by eexists.
Qed.

Lemma click_select_range ctrl index a anchor :
  last_clicked_index a = Some anchor →
  click_select true ctrl index a
  = Ok (set_selected_indices
          (Py.range (Z.min anchor index) (Z.max anchor index + 1)) a).
Proof. intros Ha. unfold click_select. by rewrite Ha. Qed.

Lemma click_select_plain shift index a :
  shift = false ∨ last_clicked_index a = None →
  click_select shift false index a
  = Ok (set_last_clicked_index (Some index)
          (set_selected_indices [index] a)).
Proof.
  intros [->| Ha]; unfold click_select; [done|].
  rewrite Ha. by destruct shift.
Qed.

Lemma click_select_toggle_off shift index a :
  shift = false ∨ last_clicked_index a = None →
  index ∈ selected_indices a →
  ∃ r, Py.remove (selected_indices a) index = Ok r
    ∧ click_select shift true index a
      = Ok (set_last_clicked_index (Some index)
              (set_selected_indices (Py.sorted r) a)).
Proof.
  intros Hs Hin. destruct (remove_ok _ _ Hin) as (r & Hr & _).
  exists r. split; [done|]. unfold click_select, Py.contains.
  rewrite bool_decide_eq_true_2, Hr by done. simpl.
  destruct Hs as [->| ->]; [done|by destruct shift].
Qed.

Lemma click_select_toggle_on shift index a :
  shift = false ∨ last_clicked_index a = None →
  index ∉ selected_indices a →
  click_select shift true index a
  = Ok (set_last_clicked_index (Some index)
          (set_selected_indices
             (Py.sorted (selected_indices a ++ [index])) a)).
Proof.
  intros Hs Hin. unfold click_select, Py.contains.
  rewrite bool_decide_eq_false_2 by done. simpl.
  destruct Hs as [->| ->]; [done|by destruct shift].
Qed.

(** What a ctrl/cmd click does to the selection. *)
Lemma click_select_toggle shift index a :
  shift = false ∨ last_clicked_index a = None →
  ∃ a', click_select shift true index a = Ok a'
    ∧ pages a' = pages a
    ∧ page_frames a' = page_frames a
    ∧ last_clicked_index a' = Some index
    ∧ drop_index a' = drop_index a
    ∧ Sorted Z.le (selected_indices a')
    ∧ selected_indices a' ⊆ index :: selected_indices a
    ∧ (NoDup (selected_indices a) →
         NoDup (selected_indices a')
         ∧ (index ∈ selected_indices a →
              ∀ p, p ∈ selected_indices a'
                   ↔ p ∈ selected_indices a ∧ p ≠ index)
         ∧ (index ∉ selected_indices a →
              ∀ p, p ∈ selected_indices a'
                   ↔ p ∈ selected_indices a ∨ p = index)).
Proof.
  intros Hs. destruct (decide (index ∈ selected_indices a)) as [Hin|Hin].
  - destruct (click_select_toggle_off shift index a Hs Hin) as (r & Hr & ->).
    destruct (remove_ok _ _ Hin) as (r' & Hr' & Hsub & Hnd).
    rewrite Hr in Hr'. injection Hr' as <-.
    eexists. split; [done|]. simpl. repeat (split; [done|]).
    split; [apply sorted_Sorted|].
    split.
    { intros p Hp. rewrite elem_of_sorted in Hp. right. exact (Hsub p Hp). }
    intros [Hndr Hiff]%Hnd. split; [by rewrite sorted_perm|].
    split; [|done]. intros _ p. by rewrite elem_of_sorted.
  - rewrite (click_select_toggle_on shift index a Hs Hin).
    eexists. split; [done|]. simpl. repeat (split; [done|]).
    split; [apply sorted_Sorted|].
    split.
    { intros p Hp.
      rewrite elem_of_sorted, elem_of_app, list_elem_of_singleton in Hp.
      destruct Hp as [Hp| ->]; [by right|by left]. }
    intros Hnd. split.
    { rewrite sorted_perm. apply NoDup_app. split; [done|].
      split; [|apply NoDup_singleton].
      intros p Hp ->%list_elem_of_singleton. done. }
    split; [done|]. intros _ p.
    by rewrite elem_of_sorted, elem_of_app, list_elem_of_singleton.
Qed.

(** C9: at the position a click resolves to, (a) a plain click makes the
    selection the singleton of that position and sets the anchor to it,
    whatever the selection was; (b) a ctrl/cmd click on a selected position
    of a duplicate-free selection removes that position and only it, on an
    unselected one adds it, the selection being sorted afterwards (and the
    anchor moves to the position); (c) a shift click without a prior anchor
    does what a plain click does; (d) a shift click with an anchor selects
    the inclusive range between anchor and position and leaves the anchor
    where it was. *)
Theorem click_state_machine tk event frame a :
  let shift := shift_of event in
  let ctrl := ctrl_of tk event in
  ∃ index a',
    _index_from_frame_or_child a frame = Ok index
    ∧ _on_click tk event frame a = Ok a'
    ∧ pages a' = pages a
    ∧ (shift = false → ctrl = false →
         selected_indices a' = [index]
         ∧ last_clicked_index a' = Some index)
    ∧ (ctrl = true → shift = false ∨ last_clicked_index a = None →
       NoDup (selected_indices a) →
         Sorted Z.le (selected_indices a')
         ∧ NoDup (selected_indices a')
         ∧ last_clicked_index a' = Some index
         ∧ (index ∈ selected_indices a →
              ∀ p, p ∈ selected_indices a'
                   ↔ p ∈ selected_indices a ∧ p ≠ index)
         ∧ (index ∉ selected_indices a →
              ∀ p, p ∈ selected_indices a'
                   ↔ p ∈ selected_indices a ∨ p = index))
    ∧ (shift = true → ctrl = false → last_clicked_index a = None →
         selected_indices a' = [index]
         ∧ last_clicked_index a' = Some index)
    ∧ (shift = true → ∀ anchor, last_clicked_index a = Some anchor →
         selected_indices a'
         = Py.range (Z.min anchor index) (Z.max anchor index + 1)
         ∧ (∀ p, p ∈ selected_indices a'
                 ↔ Z.min anchor index ≤ p ≤ Z.max anchor index)
         ∧ last_clicked_index a' = Some anchor).
Proof.
  intros shift ctrl.
  destruct (index_from_frame_total a frame) as [index Hindex].
  exists index. unfold _on_click. rewrite Hindex. simpl.
  fold shift ctrl. clearbody shift ctrl.
  assert ((shift = true ∧ ∃ anchor, last_clicked_index a = Some anchor)
          ∨ (shift = false ∨ last_clicked_index a = None)) as [[-> Ha]|Hs].
  { destruct shift, (last_clicked_index a); eauto. }
  - (* a range selection *)
    destruct Ha as [anchor Ha].
    rewrite (click_select_range _ _ _ anchor Ha). simpl.
    eexists. split; [done|]. split; [done|]. simpl.
    split; [done|]. split; [done|].
    split; [intros _ [?|?]; congruence|]. split; [congruence|].
    intros _ anchor' Ha'. rewrite Ha in Ha'. injection Ha' as <-.
    split; [done|]. split; [|done].
    intros p. rewrite elem_of_range. lia.
  - destruct ctrl.
    + (* a toggle *)
      destruct (click_select_toggle shift index a Hs)
        as (a1 & -> & Hp & _ & Hlast & _ & Hsorted & _ & Hnd). simpl.
      eexists. split; [done|]. split; [done|]. simpl.
      split; [done|]. split; [done|].
      split; [intros _ _ Hn; destruct (Hnd Hn) as (? & ? & ?); done|].
      split; [done|].
      intros -> anchor Ha. destruct Hs as [?|Hs]; congruence.
    + (* a plain click *)
      rewrite (click_select_plain shift index a Hs). simpl.
      eexists. split; [done|]. split; [done|]. simpl.
      split; [done|]. split; [done|]. split; [done|]. split; [done|].
      intros -> anchor Ha. destruct Hs as [?|Hs]; congruence.
Qed.

(** ** The drop index *)

Lemma Qlt_bool_iff p q : Qlt_bool p q = true ↔ (p < q)%Q.
Proof.
  unfold Qlt_bool. rewrite negb_true_iff. split.
  - intros Hb. apply Qnot_le_lt. intros Hle%Qle_bool_iff. congruence.
  - intros Hlt. destruct (Qle_bool q p) eqn:Hb; [|done].
    apply Qle_bool_iff in Hb. by apply Qlt_not_le in Hlt.
Qed.

Lemma scan_slots_from k (slots : list (Z * Z)) x :
  match
    scan_positions
      ((λ '(i, (x, w)), (i, x, w)) <$> Py.enumerate_from k slots) x
  with
  | Some r =>
      ∃ (j : nat) slot,
        r = k + Z.of_nat j ∧ slots !! j = Some slot
        ∧ (x < slot_mid slot)%Q
        ∧ ∀ (j' : nat) slot', (j' < j)%nat → slots !! j' = Some slot' →
            ¬ (x < slot_mid slot')%Q
  | None =>
      ∀ (j : nat) slot, slots !! j = Some slot → ¬ (x < slot_mid slot)%Q
  end.
Proof.
  revert k. induction slots as [|[x0 w0] slots IH]; intros k.
  { simpl. intros j f Hj. done. }
  rewrite enumerate_from_cons, fmap_cons. simpl scan_positions.
  destruct (Qlt_bool x (midpoint x0 w0)) eqn:Hb.
  - apply Qlt_bool_iff in Hb. exists 0%nat, (x0, w0).
    split; [lia|]. split; [done|]. split; [done|]. intros; lia.
  - assert (¬ (x < slot_mid (x0, w0))%Q) as Hn.
    { intros Hlt%Qlt_bool_iff. unfold slot_mid in *. simpl in *.
      congruence. }
    specialize (IH (k + 1)).
    destruct (scan_positions _ x) as [r|].
    + destruct IH as (j & f & -> & Hj & Hlt & Hbefore).
      exists (S j), f. split; [lia|]. split; [done|]. split; [done|].
      intros [|j'] f' Hj' Hf'.
      * simpl in Hf'. by injection Hf' as <-.
      * simpl in Hf'. apply (Hbefore j'); [lia|done].
    + intros [|j] f Hf; simpl in Hf.
      * by injection Hf as <-.
      * by apply (IH j).
Qed.

Lemma drop_index_of_slots (slots : list (Z * Z)) x :
  let N := Py.len slots in
  let r := drop_index_of (slot_positions slots) x in
  0 ≤ r ≤ N
  ∧ (∀ (j : nat) slot, slots !! j = Some slot → Z.of_nat j < r →
       ¬ (x < slot_mid slot)%Q)
  ∧ (r < N →
       ∃ slot, slots !! Z.to_nat r = Some slot ∧ (x < slot_mid slot)%Q).
Proof.
  intros N r. subst N r.
  unfold drop_index_of, slot_positions, Py.enumerate.
  pose proof (scan_slots_from 0 slots x) as Hscan.
  destruct slots as [|s0 slots'] eqn:Hslots.
  { simpl. unfold Py.len. simpl. split; [lia|]. split; [done|lia]. }
  rewrite <- Hslots in *.
  destruct ((λ '(i, (x, w)), (i, x, w)) <$> Py.enumerate_from 0 slots)
    as [|p ps] eqn:Hpos.
  { apply (f_equal length) in Hpos.
    unfold Py.enumerate_from in Hpos.
    rewrite length_fmap, length_imap, Hslots in Hpos. done. }
  rewrite <- Hpos in *.
  destruct (scan_positions _ x) as [r|].
  - destruct Hscan as (j & f & -> & Hj & Hlt & Hbefore).
    pose proof (lookup_lt_Some _ _ _ Hj). unfold Py.len.
    split; [lia|]. split.
    + intros j' f' Hf' Hlt'. apply (Hbefore j'); [lia|done].
    + intros _. exists f. by rewrite Z.add_0_l, Nat2Z.id.
  - unfold Py.len. rewrite length_fmap. unfold Py.enumerate_from.
    rewrite length_imap. split; [lia|]. split.
    + intros j f Hf _. by apply (Hscan j).
    + lia.
Qed.

Lemma enumerate_from_fmap {B C} (g : B → C) k (l : list B) :
  Py.enumerate_from k (g <$> l)
  = (λ '(i, b), (i, g b)) <$> Py.enumerate_from k l.
Proof.
  revert k. induction l as [|b l IH]; intros k; [done|].
  rewrite fmap_cons, !enumerate_from_cons, fmap_cons. by rewrite IH.
Qed.

(** The handler's function is the scan of the frames' slots. *)
Lemma compute_drop_index_slots tk a x :
  _compute_drop_index tk a x
  = drop_index_of (slot_positions (geometry tk a)) x.
Proof.
  unfold _compute_drop_index, slot_positions, geometry, Py.enumerate.
  f_equal. rewrite enumerate_from_fmap, <- list_fmap_compose.
  apply list_fmap_ext. by intros j [i f] _.
Qed.

Lemma compute_drop_index_bounds tk a x :
  0 ≤ _compute_drop_index tk a x ≤ Py.len (page_frames a).
Proof.
  rewrite compute_drop_index_slots.
  destruct (drop_index_of_slots (geometry tk a) x) as [Hb _].
  unfold geometry, Py.len in *. by rewrite length_fmap in Hb.
Qed.

Lemma uniform_slots_lookup N W G (j : nat) slot :
  uniform_slots N W G !! j = Some slot ↔
  (j < N)%nat ∧ slot = (Z.of_nat j * (W + G), W).
Proof.
  unfold uniform_slots. rewrite list_lookup_fmap, fmap_Some. split.
  - intros (j' & [-> Hj]%lookup_seq & ->). done.
  - intros [Hj ->]. exists j. split; [|done]. by apply lookup_seq.
Qed.

(** The pointer of the uniform layout passes the midpoints of the slots
    before [i] and of no other. *)
Lemma uniform_pointer_lt (i j W G : Z) :
  0 < W + G →
  (inject_Z (i * (W + G)) + inject_Z W / 2 - 1
   < slot_mid ((j * (W + G))%Z, W))%Q
  ↔ i ≤ j.
Proof.
  intros HWG. unfold slot_mid, midpoint. simpl.
  assert ((inject_Z (i * (W + G)) + inject_Z W / 2 - 1
           < inject_Z (j * (W + G)) + inject_Z W / 2)%Q
          ↔ (inject_Z (i * (W + G) - 1) < inject_Z (j * (W + G)))%Q) as ->.
  { unfold Z.sub. rewrite (inject_Z_plus _ (-1)).
    change (inject_Z (-1)) with (-1 # 1)%Q. split; intros; lra. }
  rewrite <- Zlt_Qlt. split; intros; nia.
Qed.

(** C6: for every list of N slots given as (x, width) pairs and every
    pointer x, the resolver (which is what the handler's function computes
    on the frames' geometry) returns a position in [0, N]: its result is
    the position of the first slot whose midpoint x + width/2 exceeds the
    pointer, and N when no midpoint does; with no slots it is 0. For N
    slots of width W > 0 with gap G >= 0, the first at x = 0, a pointer at
    i*(W+G) + W/2 - 1 resolves to i. *)
Theorem drop_index_resolver (slots : list (Z * Z)) (x : Q) :
  let N := Py.len slots in
  let r := drop_index_of (slot_positions slots) x in
  (∀ tk a, geometry tk a = slots → _compute_drop_index tk a x = r)
  ∧ 0 ≤ r ≤ N
  ∧ (∀ (j : nat) slot, slots !! j = Some slot → Z.of_nat j < r →
       ¬ (x < slot_mid slot)%Q)
  ∧ (r < N →
       ∃ slot, slots !! Z.to_nat r = Some slot ∧ (x < slot_mid slot)%Q)
  ∧ ((∀ (j : nat) slot, slots !! j = Some slot → ¬ (x < slot_mid slot)%Q) →
       r = N)
  ∧ (slots = [] → r = 0)
  ∧ (∀ (W G : Z) (i : nat),
       0 < W → 0 ≤ G → (i ≤ length slots)%nat →
       slots = uniform_slots (length slots) W G →
       x = (inject_Z (Z.of_nat i * (W + G)) + inject_Z W / 2 - 1)%Q →
       r = Z.of_nat i).
Proof.
  intros N r.
  destruct (drop_index_of_slots slots x) as (Hb & Hbefore & Hat).
  fold N r in Hb, Hbefore, Hat.
  split; [intros tk a <-; apply compute_drop_index_slots|].
  split; [done|]. split; [done|]. split; [done|].
  split.
  { intros Hnone. destruct (decide (r < N)) as [Hlt|Hge]; [|lia].
    destruct (Hat Hlt) as (slot & Hslot & Hx). by apply Hnone in Hslot. }
  split; [by intros ->|].
  intros W G i HW HG Hi Hslots ->.
  destruct (Z.lt_trichotomy r (Z.of_nat i)) as [Hlt|[Heq|Hgt]]; [|done|].
  - (* the slot at [r] would already be past the pointer *)
    exfalso. unfold N, Py.len in *.
    destruct (Hat ltac:(lia)) as (slot & Hslot & Hx).
    rewrite Hslots in Hslot.
    apply uniform_slots_lookup in Hslot as [_ ->].
    apply uniform_pointer_lt in Hx; lia.
  - (* the slot at [i] comes before [r] and is past the pointer *)
    exfalso. unfold N, Py.len in *.
    apply (Hbefore i (Z.of_nat i * (W + G), W)); [|done|].
    + rewrite Hslots. apply uniform_slots_lookup. split; [lia|done].
    + apply uniform_pointer_lt; lia.
Qed.

Lemma drop_index_resolver_witness :
  drop_index_of (slot_positions (uniform_slots 3 100 16))
    (inject_Z (2 * 116) + inject_Z 100 / 2 - 1)%Q = 2
  ∧ drop_index_of (slot_positions (uniform_slots 3 100 16)) (1000 # 1)%Q = 3.
Proof.
  split.
  - destruct (drop_index_resolver (uniform_slots 3 100 16)
                (inject_Z (2 * 116) + inject_Z 100 / 2 - 1)%Q)
      as (_ & _ & _ & _ & _ & _ & Huniform).
    apply (Huniform 100 16 2%nat);
      [reflexivity|discriminate|vm_compute; lia|reflexivity|reflexivity].
  - destruct (drop_index_resolver (uniform_slots 3 100 16) (1000 # 1)%Q)
      as (_ & _ & _ & _ & Hnone & _).
    apply Hnone. intros j slot Hslot.
    apply uniform_slots_lookup in Hslot as [Hj ->].
    unfold slot_mid, midpoint, Qlt. simpl. lia.
Defined.

(** ** The session invariant *)

Lemma Inv_same a b :
  pages b = pages a → page_frames b = page_frames a →
  selected_indices b = selected_indices a →
  last_clicked_index b = last_clicked_index a →
  drop_index b = drop_index a →
  Inv a → Inv b.
Proof.
  intros Hp Hf Hs Hl Hd [H1 H2 H3 H4 H5].
  split; rewrite ?Hp, ?Hf, ?Hs, ?Hl, ?Hd; done.
Qed.

Lemma Inv_init : Inv init.
Proof.
  split; simpl; try done; [constructor|constructor].
Qed.

Lemma Inv_import item frame a : Inv a → Inv (import_page item frame a).
Proof.
  intros [H1 H2 H3 H4 H5].
  split; unfold in_range, Py.len in *; simpl; rewrite ?length_app; simpl.
  - lia.
  - done.
  - eapply Forall_impl; [exact H3|]. intros p Hp. simpl in Hp. lia.
  - intros i Hi. specialize (H4 i Hi). lia.
  - intros d Hd. specialize (H5 d Hd). lia.
Qed.

Lemma Inv_toggle i a : Inv a → Inv (toggle_include i a).
Proof.
  intros [H1 H2 H3 H4 H5].
  split; unfold in_range, Py.len in *; simpl; rewrite ?length_alter; done.
Qed.

Lemma Inv_hide a : Inv a → Inv (_hide_insert_bar a).
Proof.
  destruct (hide_insert_bar_fields a) as (? & ? & ? & ? & _ & _ & ? & _).
  by apply Inv_same.
Qed.

Lemma on_click_Inv tk event frame a :
  Inv a → frame ∈ page_frames a →
  ∃ a', _on_click tk event frame a = Ok a' ∧ Inv a'.
Proof.
  intros [H1 H2 H3 H4 H5] Hframe.
  destruct (index_of_page_frame a frame Hframe) as (index & Hindex & Hi).
  assert (0 ≤ index < Py.len (pages a)) as Hi'
    by (unfold Py.len in *; lia).
  unfold _on_click. rewrite Hindex. simpl.
  assert ((shift_of event = true
           ∧ ∃ anchor, last_clicked_index a = Some anchor)
          ∨ (shift_of event = false ∨ last_clicked_index a = None))
    as [[-> [anchor Ha]]|Hs].
  { destruct (shift_of event), (last_clicked_index a); eauto. }
  - rewrite (click_select_range _ _ _ anchor Ha). simpl.
    eexists. split; [done|]. pose proof (H4 anchor Ha) as Hanchor.
    split; simpl; try done.
    + apply NoDup_range.
    + apply Forall_forall. intros p Hp%elem_of_range. lia.
  - destruct (ctrl_of tk event).
    + destruct (click_select_toggle (shift_of event) index a Hs)
        as (a1 & -> & Hp & Hf & Hlast & Hdrop & _ & Hsub & Hnd). simpl.
      eexists. split; [done|].
      split; simpl; rewrite ?Hp, ?Hf, ?Hlast; try done.
      * by apply Hnd.
      * apply Forall_forall. intros p Hp'. apply Hsub in Hp'.
        apply elem_of_cons in Hp' as [->|Hp']; [done|].
        unfold in_range in H3. rewrite Forall_forall in H3. by apply H3.
      * by intros i [= <-].
    + rewrite (click_select_plain _ index a Hs). simpl.
      eexists. split; [done|].
      split; simpl; try done.
      * apply NoDup_singleton.
      * by apply Forall_singleton.
      * by intros i [= <-].
Qed.

Lemma getitem_minus_one {A} (l : list A) :
  l ≠ [] → ∃ x, Py.getitem l (-1) = Ok x.
Proof.
  destruct l as [|x l _] using rev_ind; [done|].
  intros _. exists x. apply getitem_last.
Qed.

Lemma show_insert_bar_ok tk d a :
  0 ≤ d ≤ Py.len (page_frames a) →
  ∃ x, _show_insert_bar tk d a = Ok (set_insert_bar (Some x) a).
Proof.
  intros Hd. unfold _show_insert_bar.
  destruct (Z.leb_spec (Py.len (page_frames a)) d) as [Hge|Hlt].
  - destruct (page_frames a) as [|f fs] eqn:Hframes; [by eexists|].
    destruct (getitem_minus_one (f :: fs)) as [last ->]; [done|].
    by eexists.
  - destruct (lookup_lt_is_Some_2 (page_frames a) (Z.to_nat d)) as [f Hf];
      [unfold Py.len in *; lia|].
    rewrite (getitem_ok _ d f) by (done || lia). by eexists.
Qed.

Lemma on_drag_Inv tk event frame a :
  Inv a → ∃ a', _on_drag tk event frame a = Ok a' ∧ Inv a'.
Proof.
  intros Ha. unfold _on_drag.
  destruct (drag_start_index a) as [start|]; [|by eexists].
  set (d := _compute_drop_index tk a _).
  pose proof (compute_drop_index_bounds tk a
                (inject_Z (x_root event - inner_rootx tk))) as Hd.
  fold d in Hd.
  destruct (show_insert_bar_ok tk d (set_drag true (Some start) (Some d) a))
    as [x ->]; [done|].
  eexists. split; [done|]. destruct Ha as [H1 H2 H3 H4 H5].
  split; simpl; try done.
  intros d' [= <-]. unfold Py.len in *. lia.
Qed.

(** Without an active drag or a drop index the handler returns at once;
    with an empty selection it returns after hiding the bar. *)
Lemma on_release_aborts event frame a :
  (dragging a = false ∨ drop_index a = None →
   _on_release event frame a = Ok a)
  ∧ (dragging a = true → is_Some (drop_index a) →
     selected_indices a = [] →
     _on_release event frame a = Ok (_hide_insert_bar a)).
Proof.
  unfold _on_release. split.
  - intros [-> | ->]; [done|]. by destruct (dragging a).
  - intros -> [d ->] Hsel.
    destruct (hide_insert_bar_fields a) as (_ & _ & -> & _).
    by rewrite Hsel.
Qed.

Lemma on_release_Inv event frame a :
  Inv a → ∃ a', _on_release event frame a = Ok a' ∧ Inv a'.
Proof.
  intros Ha. destruct (on_release_aborts event frame a) as [Hidle Hempty].
  destruct (dragging a) eqn:Hdrag; [|eexists; split; [by apply Hidle; left|done]].
  destruct (drop_index a) as [d|] eqn:Hdrop;
    [|eexists; split; [by apply Hidle; right|done]].
  destruct (decide (selected_indices a = [])) as [Hsel|Hsel].
  { eexists. split; [by apply Hempty|]. by apply Inv_hide. }
  destruct Ha as [H1 H2 H3 H4 H5]. specialize (H5 d Hdrop).
  eexists. split; [by apply on_release_relocates|].
  pose proof (count_before_bounds _ _ _ H2 H3 H5) as Hdest.
  destruct (hide_insert_bar_fields a) as (_ & _ & _ & Hlast & _).
  split; simpl.
  - by rewrite !relocated_perm.
  - apply NoDup_range.
  - apply Forall_forall. intros p Hp%elem_of_range.
    unfold Py.len in *. rewrite relocated_perm. lia.
  - rewrite Hlast. intros i Hi. unfold Py.len. rewrite relocated_perm.
    by apply H4.
  - done.
Qed.

Lemma run_Inv act a :
  Inv a → aimed a act → ∃ a', run act a = Ok a' ∧ Inv a'.
Proof.
  intros Ha Haim. destruct act; simpl in *.
  - eexists. split; [done|]. by apply Inv_import.
  - eexists. split; [done|]. by apply Inv_toggle.
  - by apply on_click_Inv.
  - by apply on_drag_Inv.
  - by apply on_release_Inv.
Qed.

Lemma reachable_Inv a : reachable a → Inv a.
Proof.
  induction 1 as [|a act a' _ IH Haim Hrun]; [apply Inv_init|].
  destruct (run_Inv act a IH Haim) as (a'' & Hrun' & Ha'').
  rewrite Hrun in Hrun'. by injection Hrun' as <-.
Qed.

(** C4: in every state a session reaches, every selected position lies in
    [0, N) for the N pages of the collection; and from such a state every
    handler, run on a page frame, returns a state where this holds again:
    after a plain click, a range selection, a toggle, and after a
    relocation, which remaps the selection to the moved run. *)
Theorem selection_stays_in_range a :
  reachable a →
  in_range (Py.len (pages a)) (selected_indices a)
  ∧ ∀ act, aimed a act →
      ∃ a', run act a = Ok a'
        ∧ in_range (Py.len (pages a')) (selected_indices a').
Proof.
  intros Ha%reachable_Inv. split; [apply Ha|].
  intros act Haim. destruct (run_Inv act a Ha Haim) as (a' & Hrun & Ha').
  exists a'. split; [done|apply Ha'].
Qed.

Lemma selection_stays_in_range_witness :
  ∃ a', run (Click Sample.tk (Sample.with_shift 130) (Sample.frame 1))
          (import_page Sample.B (Sample.frame 1)
             (import_page Sample.A (Sample.frame 0) init)) = Ok a'
    ∧ in_range (Py.len (pages a')) (selected_indices a').
Proof.
  refine (proj2 (selection_stays_in_range _ _) _ _).
  - apply (reachable_step _ (Import Sample.B (Sample.frame 1)) _
             (reachable_step _ (Import Sample.A (Sample.frame 0)) _
                reachable_init I eq_refl) I eq_refl).
  - unfold aimed. by_computing.
Defined.

(** ** Sample clicks, a stray click and aborted releases *)

Lemma click_state_machine_witness :
  (∃ a', _on_click Sample.tk (Sample.plain 130) (Sample.frame 1)
           Sample.two_pages = Ok a'
     ∧ selected_indices a' = [1] ∧ last_clicked_index a' = Some 1)
  ∧ (∃ a', _on_click Sample.tk (Sample.with_ctrl 50) (Sample.frame 0)
             Sample.two_pages = Ok a'
       ∧ ∀ p, p ∈ selected_indices a' ↔ p ∈ [0] ∧ p ≠ 0)
  ∧ (∃ a', _on_click Sample.tk (Sample.with_shift 130) (Sample.frame 1)
             Sample.fresh = Ok a'
       ∧ selected_indices a' = [1] ∧ last_clicked_index a' = Some 1)
  ∧ (∃ a', _on_click Sample.tk (Sample.with_shift 130) (Sample.frame 1)
             Sample.two_pages = Ok a'
       ∧ selected_indices a' = [0; 1] ∧ last_clicked_index a' = Some 0).
Proof.
  split; [|split; [|split]].
  - destruct (click_state_machine Sample.tk (Sample.plain 130)
                (Sample.frame 1) Sample.two_pages)
      as (index & a' & Hindex & Hrun & _ & Hplain & _).
    vm_compute in Hindex. injection Hindex as <-.
    exists a'. split; [exact Hrun|]. apply Hplain; reflexivity.
  - destruct (click_state_machine Sample.tk (Sample.with_ctrl 50)
                (Sample.frame 0) Sample.two_pages)
      as (index & a' & Hindex & Hrun & _ & _ & Htoggle & _).
    vm_compute in Hindex. injection Hindex as <-.
    exists a'. split; [exact Hrun|].
    destruct Htoggle as (_ & _ & _ & Hoff & _);
      [reflexivity|left; reflexivity|by_computing|].
    apply Hoff. by_computing.
  - destruct (click_state_machine Sample.tk (Sample.with_shift 130)
                (Sample.frame 1) Sample.fresh)
      as (index & a' & Hindex & Hrun & _ & _ & _ & Hshift & _).
    vm_compute in Hindex. injection Hindex as <-.
    exists a'. split; [exact Hrun|]. apply Hshift; reflexivity.
  - destruct (click_state_machine Sample.tk (Sample.with_shift 130)
                (Sample.frame 1) Sample.two_pages)
      as (index & a' & Hindex & Hrun & _ & _ & _ & _ & Hrange).
    vm_compute in Hindex. injection Hindex as <-.
    exists a'. split; [exact Hrun|].
    destruct (Hrange eq_refl 0 eq_refl) as (Hsel & _ & Hanchor).
    split; [exact Hsel|exact Hanchor].
Defined.



(** C5 holds of the design but not of the handler: its early returns skip
    the reset of the drag state that the relocating path ends with. After
    a drag with an emptied selection the handler leaves the drag active
    with its drop index; after a press without motion it leaves the
    origin set. In both the pages are as they were. *)
Theorem release_abort_leaves_drag_state :
  (∃ a', run_all Sample.empty_drag init = Ok a'
     ∧ pages a' = [Sample.A]
     ∧ selected_indices a' = []
     ∧ dragging a' = true
     ∧ drop_index a' = Some 1
     ∧ drag_start_index a' = Some 0)
  ∧ (∃ a', run_all Sample.press_only init = Ok a'
       ∧ pages a' = [Sample.A]
       ∧ dragging a' = false
       ∧ drop_index a' = None
       ∧ drag_start_index a' = Some 0).
Proof.
  split; eexists; (split; [vm_compute; reflexivity|]);
    repeat split; reflexivity.
Qed.

(** ** Export *)

Section ExportFacts.

Context {page_content : Type}.
Implicit Types (fs : gmap string (list page_content))
  (st : @ExportState page_content) (content : list page_content).

Lemma build_cons item items :
  build (item :: items)
  = if include_var item
    then (source_path item, page_index item) :: build items
    else build items.
Proof.
  unfold build. rewrite filter_cons.
  destruct (include_var item); by case_decide.
Qed.

(** Excluded items leave the export state alone. *)
Lemma export_loop_excluded fs items st :
  Forall (λ item, include_var item = false) items →
  export_loop fs items st = (st, Ok ()).
Proof.
  induction 1 as [|item items Hitem _ IH]; [done|].
  simpl. by rewrite Hitem.
Qed.

(** When the references of the request resolve, the loop hands their
    pages to the writer, in order. *)
Lemma export_loop_ok fs items st content :
  (∀ path doc, readers st !! path = Some doc → fs !! path = Some doc) →
  Forall2 (λ ref pg, fetch fs ref = Some pg) (build items) content →
  ∃ st', export_loop fs items st = (st', Ok ())
    ∧ writer st' = writer st ++ content
    ∧ added_pages (log st') = added_pages (log st) ++ build items.
Proof.
  revert st content. induction items as [|item items IH];
    intros st content Hcache Hrefs.
  { apply Forall2_nil_inv_l in Hrefs as ->. exists st.
    by rewrite !app_nil_r. }
  rewrite build_cons in Hrefs |- *. simpl.
  destruct (include_var item) eqn:Hincl; simpl; [|by apply IH].
  apply Forall2_cons_inv_l in Hrefs
    as (pg & content' & Hpg & Hrefs & ->).
  unfold fetch in Hpg. simpl in Hpg.
  destruct (fs !! source_path item) as [doc|] eqn:Hdoc; [|done].
  simpl in Hpg.
  destruct (Py.getitem doc (page_index item)) as [pg'|] eqn:Hget; [|done].
  injection Hpg as ->.
  unfold reader_for.
  destruct (readers st !! source_path item) as [reader|] eqn:Hreader.
  - apply Hcache in Hreader. rewrite Hdoc in Hreader.
    injection Hreader as <-.
    unfold add_page. rewrite Hget.
    edestruct IH as (st' & -> & Hw & Hl); [|exact Hrefs|].
    { done. }
    exists st'. split; [done|]. simpl in *.
    rewrite Hw, Hl. unfold added_pages.
    rewrite omap_app. simpl. by rewrite <- !app_assoc.
  - simpl. rewrite Hdoc. unfold add_page. rewrite Hget.
    edestruct IH as (st' & -> & Hw & Hl); [|exact Hrefs|].
    { simpl. intros path doc'.
      destruct (decide (source_path item = path)) as [<-|Hne].
      - rewrite lookup_insert_eq. by intros [= <-].
      - rewrite lookup_insert_ne by done. apply Hcache. }
    exists st'. split; [done|]. simpl in *.
    rewrite Hw, Hl. unfold added_pages.
    rewrite !omap_app. simpl. by rewrite <- !app_assoc.
Qed.

End ExportFacts.

(** C8: when every item of the collection is excluded, the request is
    empty and the export raises "No pages selected for export." having
    done nothing but create the empty writer: no source is opened, no page
    is added and nothing is written to the destination. *)
Theorem empty_export_fails {page_content : Type} (io : Disk)
    (fs : gmap string (list page_content)) (a : App) (out : string) :
  Forall (λ item, include_var item = false) (pages a) →
  build (pages a) = []
  ∧ _export_pdf io fs a out
    = ([NewWriter], fs,
       Raise (RuntimeError "No pages selected for export.")).
Proof.
  intros Hexcl. split.
  - unfold build. rewrite filter_none; [done|].
    rewrite Forall_forall in Hexcl. intros item Hitem%Hexcl. congruence.
  - unfold _export_pdf. by rewrite export_loop_excluded.
Qed.

Lemma empty_export_fails_witness :
  _export_pdf Demo.writable Sample.docs
    (Sample.export_app [false; false; false]) "out.pdf"
  = ([NewWriter], Sample.docs,
     Raise (RuntimeError "No pages selected for export.")).
Proof.
  apply (empty_export_fails Demo.writable Sample.docs
           (Sample.export_app [false; false; false]) "out.pdf").
  repeat constructor.
Defined.

(** * Further properties of the handlers *)

(** ** The resolver *)

Lemma walk_up_lineage frames w :
  match walk_up frames w with
  | Some c =>
      ∃ before after,
        lineage w = before ++ c :: after ∧ c ∈ frames
        ∧ ∀ b, b ∈ before → b ∉ frames
  | None => ∀ c, c ∈ lineage w → c ∉ frames
  end.
Proof.
  induction w as [n|n m IH]; simpl; unfold Py.contains; case_bool_decide.
  - exists [], []. split; [done|]. split; [done|]. by intros b ?%elem_of_nil.
  - by intros c ->%list_elem_of_singleton.
  - exists [], (lineage m). split; [done|]. split; [done|].
    by intros b ?%elem_of_nil.
  - destruct (walk_up frames m) as [c|].
    + destruct IH as (before & after & -> & Hc & Hbefore).
      exists (Child n m :: before), after. split; [done|]. split; [done|].
      intros b [->|Hb]%elem_of_cons; [done|by apply Hbefore].
    + intros c [->|Hc]%elem_of_cons; [done|by apply IH].
Qed.

(** [l.index(x)] is the first position holding [x]. *)
Lemma index_first `{EqDecision A} (l : list A) (x : A) (i : Z) :
  Py.index l x = Ok i →
  0 ≤ i < Py.len l ∧ l !! Z.to_nat i = Some x
  ∧ ∀ j : nat, Z.of_nat j < i → l !! j ≠ Some x.
Proof.
  unfold Py.len. revert i. induction l as [|y l IH]; intros i; simpl; [done|].
  destruct (decide (y = x)) as [->|Hne].
  - intros [= <-]. simpl. split; [lia|]. split; [done|]. intros; lia.
  - destruct (Py.index l x) as [i'|] eqn:Hi'; simpl; [|done].
    intros [= <-]. destruct (IH i' eq_refl) as (Hb & Hx & Hfirst).
    split; [lia|]. split.
    + replace (Z.to_nat (1 + i')) with (S (Z.to_nat i')) by lia. done.
    + intros [|j] Hj; simpl; [congruence|]. apply Hfirst. lia.
Qed.

(** The resolver returns -1 exactly when neither the widget nor any of its
    masters is a page frame; otherwise it returns the first position of the
    nearest one of them that is a page frame. *)
Theorem resolver_finds_nearest_page_frame a w :
  ∃ index, _index_from_frame_or_child a w = Ok index
    ∧ ((index = -1 ∧ ∀ c, c ∈ lineage w → c ∉ page_frames a)
       ∨ (0 ≤ index < Py.len (page_frames a)
          ∧ ∃ before c after,
              lineage w = before ++ c :: after
              ∧ (∀ b, b ∈ before → b ∉ page_frames a)
              ∧ page_frames a !! Z.to_nat index = Some c
              ∧ ∀ j : nat, Z.of_nat j < index →
                  page_frames a !! j ≠ Some c)).
Proof.
  unfold _index_from_frame_or_child.
  pose proof (walk_up_lineage (page_frames a) w) as Hwalk.
  destruct (walk_up (page_frames a) w) as [c|]; [|eauto].
  destruct Hwalk as (before & after & Hlin & Hc & Hbefore).
  unfold Py.contains. rewrite bool_decide_eq_true_2 by done.
  destruct (index_ok _ _ Hc) as (i & Hi & _). rewrite Hi.
  destruct (index_first _ _ _ Hi) as (Hb & Hx & Hfirst).
  exists i. split; [done|]. right. split; [done|].
  by exists before, c, after.
Qed.

(** With distinct page frames, the frame at position [i] resolves to [i],
    and so does a widget placed directly inside it, such as its
    thumbnail. *)
Theorem resolver_round_trip a (i : nat) f :
  NoDup (page_frames a) → page_frames a !! i = Some f →
  _index_from_frame_or_child a f = Ok (Z.of_nat i)
  ∧ ∀ n, Child n f ∉ page_frames a →
      _index_from_frame_or_child a (Child n f) = Ok (Z.of_nat i).
Proof.
  intros Hnd Hf.
  assert (f ∈ page_frames a) as Hin by (apply list_elem_of_lookup; eauto).
  assert (_index_from_frame_or_child a f = Ok (Z.of_nat i)) as Hres.
  { unfold _index_from_frame_or_child.
    rewrite walk_up_page_frame by done. unfold Py.contains.
    rewrite bool_decide_eq_true_2 by done.
    destruct (index_ok _ _ Hin) as (j & Hj & _). rewrite Hj.
    destruct (index_first _ _ _ Hj) as (Hb & Hx & _).
    pose proof (NoDup_lookup _ _ _ _ Hnd Hx Hf). f_equal. lia. }
  split; [done|]. intros n Hn.
  unfold _index_from_frame_or_child in *. simpl. unfold Py.contains at 1.
  by rewrite bool_decide_eq_false_2 by done.
Qed.

Lemma resolver_round_trip_witness :
  _index_from_frame_or_child Demo.three_pages (Sample.frame 1) = Ok 1
  ∧ _index_from_frame_or_child Demo.three_pages Demo.thumb = Ok 1.
Proof.
  destruct (resolver_round_trip Demo.three_pages 1 (Sample.frame 1))
    as [Hframe Hthumb]; [by_computing|reflexivity|].
  split; [exact Hframe|]. apply Hthumb. by_computing.
Defined.

(** ** The shape of what the handlers return *)

Lemma range_strictly_sorted a b : StronglySorted Z.lt (Py.range a b).
Proof.
  unfold Py.range. generalize (Z.to_nat (b - a)) as n. generalize 0%nat as m.
  intros m n. revert m. induction n as [|n IH]; intros m; [constructor|].
  simpl. constructor; [apply IH|].
  apply Forall_forall. intros p (k & -> & Hk%elem_of_seq)%list_elem_of_fmap.
  lia.
Qed.

Lemma sorted_of_strictly_sorted (l : list Z) :
  StronglySorted Z.lt l → Py.sorted l = l.
Proof.
  intros Hl. apply (Sorted_unique Z.le).
  - apply sorted_Sorted.
  - induction Hl as [|x l Hl IH Hx]; constructor; [done|].
    destruct Hx as [|y l Hxy _]; constructor. lia.
  - apply sorted_perm.
Qed.

(** A click always returns: it leaves pages and frames, cancels any drag
    state, sets an anchor, and keeps the selection ascending. *)
Lemma on_click_shape tk event frame a :
  ∃ index a',
    _index_from_frame_or_child a frame = Ok index
    ∧ _on_click tk event frame a = Ok a'
    ∧ pages a' = pages a ∧ page_frames a' = page_frames a
    ∧ dragging a' = false ∧ drag_start_index a' = Some index
    ∧ drop_index a' = None
    ∧ is_Some (last_clicked_index a')
    ∧ (NoDup (selected_indices a) →
       StronglySorted Z.lt (selected_indices a')).
Proof.
  destruct (index_from_frame_total a frame) as [index Hindex].
  exists index. unfold _on_click. rewrite Hindex. simpl.
  assert ((shift_of event = true
           ∧ ∃ anchor, last_clicked_index a = Some anchor)
          ∨ (shift_of event = false ∨ last_clicked_index a = None))
    as [[-> [anchor Ha]]|Hs].
  { destruct (shift_of event), (last_clicked_index a); eauto. }
  - rewrite (click_select_range _ _ _ anchor Ha). simpl.
    eexists. split; [done|]. split; [done|]. simpl.
    do 5 (split; [done|]). split; [by rewrite Ha|].
    intros _. apply range_strictly_sorted.
  - destruct (ctrl_of tk event).
    + destruct (click_select_toggle (shift_of event) index a Hs)
        as (a1 & -> & Hp & Hf & Hlast & Hdrop & Hsorted & _ & Hnd). simpl.
      eexists. split; [done|]. split; [done|]. simpl.
      do 5 (split; [done|]). split; [by rewrite Hlast|].
      intros Hn. apply strictly_sorted; [done|by apply Hnd].
    + rewrite (click_select_plain _ index a Hs). simpl.
      eexists. split; [done|]. split; [done|]. simpl.
      do 5 (split; [done|]). split; [done|]. intros _.
      repeat constructor.
Qed.

Lemma on_drag_shape tk event frame a start :
  drag_start_index a = Some start →
  let d := _compute_drop_index tk a
             (inject_Z (x_root event - inner_rootx tk)) in
  ∃ x, _on_drag tk event frame a
       = Ok (set_insert_bar (Some x)
               (set_drag true (Some start) (Some d) a)).
Proof.
  intros Hstart d. unfold _on_drag. rewrite Hstart. fold d.
  destruct (show_insert_bar_ok tk d (set_drag true (Some start) (Some d) a))
    as [x Hx]; [exact (compute_drop_index_bounds tk a _)|].
  by exists x.
Qed.

Lemma hide_insert_bar_idemp a :
  _hide_insert_bar (_hide_insert_bar a) = _hide_insert_bar a.
Proof.
  unfold _hide_insert_bar.
  destruct (insert_bar a) eqn:Hbar; simpl; by rewrite ?Hbar.
Qed.

(** The three ways the release handler returns. *)
Lemma on_release_cases event frame a a' :
  _on_release event frame a = Ok a' →
  (a' = a ∧ (dragging a = false ∨ drop_index a = None))
  ∨ (a' = _hide_insert_bar a ∧ dragging a = true
     ∧ is_Some (drop_index a) ∧ selected_indices a = [])
  ∨ (dragging a = true ∧ is_Some (drop_index a)
     ∧ selected_indices a ≠ []
     ∧ ∃ ps fs dest,
         a' = set_drag false None None
                (set_selected_indices
                   (Py.range dest (dest + Py.len (selected_indices a)))
                   (set_lists ps fs (_hide_insert_bar a)))).
Proof.
  unfold _on_release.
  destruct (dragging a) eqn:Hdrag; [|intros [= <-]; eauto].
  destruct (drop_index a) as [d|] eqn:Hdrop; [|intros [= <-]; eauto].
  cbv zeta.
  destruct (hide_insert_bar_fields a) as (Hp & Hf & Hs & _).
  rewrite Hp, Hf, Hs.
  destruct (Py.sorted (selected_indices a)) as [|i s] eqn:Hsel.
  { intros [= <-]. right. left. split; [done|]. split; [done|].
    split; [by eexists|]. apply Permutation_nil_r.
    rewrite <- Hsel. symmetry. apply sorted_perm. }
  assert (selected_indices a ≠ []) as Hne.
  { intros Hnil. rewrite Hnil in Hsel. done. }
  assert (Py.len (i :: s) = Py.len (selected_indices a)) as Hlen.
  { unfold Py.len. by rewrite <- Hsel, length_sorted. }
  rewrite Hlen.
  destruct (comprehension (Py.getitem (pages a)) (i :: s)) as [mp|];
    [|intros Hrun; discriminate Hrun].
  destruct (comprehension (Py.getitem (page_frames a)) (i :: s)) as [mf|];
    [|intros Hrun; discriminate Hrun].
  destruct (remove_selected (i :: s) (pages a, page_frames a))
    as [[kp kf]|]; [|intros Hrun; discriminate Hrun].
  unfold mbind, result_bind. cbv beta iota.
  destruct (insert_moved _ mp mf (kp, kf)) as [ps fs].
  intros [= <-]. right. right. split; [done|]. split; [by eexists|].
  split; [done|]. by eexists _, _, _.
Qed.

(** ** Presses, drags and releases *)

(** A click cancels whatever drag state was left over, and a release that
    follows it without any motion in between leaves everything as the click
    made it: a press alone never reorders the pages. *)
Theorem press_without_motion_changes_nothing
    tk event frame event' frame' a :
  ∃ a1, _on_click tk event frame a = Ok a1
    ∧ dragging a1 = false ∧ drop_index a1 = None
    ∧ pages a1 = pages a ∧ page_frames a1 = page_frames a
    ∧ _on_release event' frame' a1 = Ok a1.
Proof.
  destruct (on_click_shape tk event frame a)
    as (index & a1 & _ & Hrun & Hp & Hf & Hdrag & _ & Hdrop & _).
  exists a1. repeat (split; [done|]).
  apply on_release_aborts. by left.
Qed.

(** A motion never raises and never touches the pages, the frames, the
    selection, the anchor or the origin of the drag. Before any press it
    does nothing at all; after one it marks the drag active, shows the bar
    and records the drop index of the pointer, which lies in [0, N]. *)
Theorem drag_only_sets_the_drop_index tk event frame a :
  ∃ a', _on_drag tk event frame a = Ok a'
    ∧ pages a' = pages a ∧ page_frames a' = page_frames a
    ∧ selected_indices a' = selected_indices a
    ∧ last_clicked_index a' = last_clicked_index a
    ∧ drag_start_index a' = drag_start_index a
    ∧ (drag_start_index a = None → a' = a)
    ∧ (is_Some (drag_start_index a) →
       dragging a' = true ∧ is_Some (insert_bar a')
       ∧ ∃ d, drop_index a' = Some d
           ∧ d = _compute_drop_index tk a
                   (inject_Z (x_root event - inner_rootx tk))
           ∧ 0 ≤ d ≤ Py.len (page_frames a')).
Proof.
  destruct (drag_start_index a) as [start|] eqn:Hstart.
  - destruct (on_drag_shape tk event frame a start Hstart) as [x ->].
    eexists. split; [done|]. simpl. do 5 (split; [done|]).
    split; [done|]. intros _. split; [done|]. split; [by eexists|].
    eexists. split; [done|]. split; [done|].
    exact (compute_drop_index_bounds tk a _).
  - exists a. unfold _on_drag. rewrite Hstart.
    do 6 (split; [done|]). split; [done|]. by intros [? ?].
Qed.

Lemma drag_only_sets_the_drop_index_witness :
  ∃ a', _on_drag Sample.tk (Sample.plain 130) (Sample.frame 1)
          Sample.two_pages = Ok a'
    ∧ a' = Sample.two_pages.
Proof.
  destruct (drag_only_sets_the_drop_index Sample.tk (Sample.plain 130)
              (Sample.frame 1) Sample.two_pages)
    as (a' & Hrun & _ & _ & _ & _ & _ & Hidle & _).
  exists a'. split; [exact Hrun|]. apply Hidle. reflexivity.
Defined.

(** Moving the pointer to the right never moves the drop index to the
    left, whatever the geometry of the slots. *)
Theorem drop_index_monotone (slots : list (Z * Z)) (x x' : Q) :
  (x <= x')%Q →
  drop_index_of (slot_positions slots) x
  ≤ drop_index_of (slot_positions slots) x'.
Proof.
  intros Hx.
  destruct (drop_index_of_slots slots x) as (Hb & Hbefore & _).
  destruct (drop_index_of_slots slots x') as (Hb' & _ & Hat').
  destruct (Z.le_gt_cases (drop_index_of (slot_positions slots) x)
              (drop_index_of (slot_positions slots) x')) as [|Hgt]; [done|].
  exfalso. destruct Hat' as (slot & Hslot & Hlt); [lia|].
  apply (Hbefore _ slot Hslot); [lia|].
  eapply Qle_lt_trans; done.
Qed.

Lemma drop_index_monotone_witness :
  drop_index_of (slot_positions (uniform_slots 3 100 16)) (10 # 1)
  ≤ drop_index_of (slot_positions (uniform_slots 3 100 16)) (200 # 1).
Proof.
  apply drop_index_monotone. unfold Qle. simpl. lia.
Defined.

(** When no drag is active, no drop index is pending or nothing is
    selected, a release returns with the pages, the frames, the selection
    and the anchor as they were. *)
Theorem release_abort_keeps_collection event frame a :
  dragging a = false ∨ drop_index a = None ∨ selected_indices a = [] →
  ∃ a', _on_release event frame a = Ok a'
    ∧ pages a' = pages a ∧ page_frames a' = page_frames a
    ∧ selected_indices a' = selected_indices a
    ∧ last_clicked_index a' = last_clicked_index a.
Proof.
  intros Habort.
  destruct (on_release_aborts event frame a) as [Hidle Hempty].
  destruct (dragging a) eqn:Hdrag;
    [|exists a; split; [apply Hidle; by left|done]].
  destruct (drop_index a) as [d|] eqn:Hdrop;
    [|exists a; split; [apply Hidle; by right|done]].
  destruct Habort as [?|[?|Hsel]]; [done|done|].
  exists (_hide_insert_bar a). split; [by apply Hempty|].
  destruct (hide_insert_bar_fields a) as (? & ? & ? & ? & _). done.
Qed.

Lemma release_abort_keeps_collection_witness :
  ∃ a', _on_release (Sample.plain 0) (Sample.frame 0) Sample.two_pages
        = Ok a'
    ∧ pages a' = [Sample.A; Sample.B] ∧ selected_indices a' = [0].
Proof.
  destruct (release_abort_keeps_collection (Sample.plain 0)
              (Sample.frame 0) Sample.two_pages)
    as (a' & Hrun & Hp & _ & Hs & _); [left; reflexivity|].
  exists a'. split; [exact Hrun|]. split; [exact Hp|exact Hs].
Defined.

(** A second release is a no-op: whatever a release returns, releasing
    again returns the same state. *)
Theorem release_twice_is_release_once event frame event' frame' a a' :
  _on_release event frame a = Ok a' →
  _on_release event' frame' a' = Ok a'.
Proof.
  intros [[-> Hidle]|[(-> & Hdrag & Hdrop & Hsel)|Hmoved]]%on_release_cases.
  - by apply on_release_aborts.
  - destruct (hide_insert_bar_fields a) as (_ & _ & Hs & _ & Hd & _ & Hi & _).
    rewrite <- (hide_insert_bar_idemp a) at 2.
    apply on_release_aborts; congruence.
  - destruct Hmoved as (_ & _ & _ & ps & fs & dest & ->).
    apply on_release_aborts. by left.
Qed.

Lemma release_twice_is_release_once_witness :
  ∃ a', _on_release (Sample.plain 0) (Sample.frame 3) Sample.dragging_BD
        = Ok a'
    ∧ _on_release (Sample.plain 0) (Sample.frame 3) a' = Ok a'.
Proof.
  eexists. split; [reflexivity|].
  apply (release_twice_is_release_once (Sample.plain 0) (Sample.frame 3)
           _ _ Sample.dragging_BD).
  reflexivity.
Defined.

(** ** What holds in every state of a session *)

Lemma reachable_fresh : reachable Sample.fresh.
Proof.
  apply (reachable_step _ (Import Sample.B (Sample.frame 1)) _
           (reachable_step _ (Import Sample.A (Sample.frame 0)) _
              reachable_init I eq_refl) I eq_refl).
Qed.

Lemma reachable_clicked :
  reachable (set_drag false (Some 0) None
               (set_last_clicked_index (Some 0)
                  (set_selected_indices [0] Sample.fresh))).
Proof.
  apply (reachable_step Sample.fresh
           (Click Sample.tk (Sample.plain 20) (Sample.frame 0)));
    [exact reachable_fresh|unfold aimed; by_computing|reflexivity].
Qed.

Lemma reachable_range_selected : reachable Demo.range_selected.
Proof.
  apply (reachable_step _
           (Click Sample.tk (Sample.with_shift 130) (Sample.frame 1)) _
           reachable_clicked);
    [unfold aimed; by_computing|vm_compute; reflexivity].
Qed.

Lemma reachable_mid_drag : reachable Demo.mid_drag.
Proof.
  apply (reachable_step _
           (Drag Sample.tk (Sample.plain 130) (Sample.frame 0)) _
           reachable_clicked);
    [unfold aimed; by_computing|vm_compute; reflexivity].
Qed.

Lemma reachable_coherent a :
  reachable a →
  StronglySorted Z.lt (selected_indices a)
  ∧ (selected_indices a ≠ [] → is_Some (last_clicked_index a))
  ∧ (dragging a = true ↔ is_Some (drop_index a))
  ∧ (dragging a = true → is_Some (drag_start_index a)).
Proof.
  induction 1 as [|a act a' Ha IH Haim Hrun].
  { simpl. split; [constructor|]. split; [done|].
    split; [|done]. split; [done|]. by intros [? ?]. }
  destruct IH as (Hsorted & Hanchor & Hdrag & Hstart).
  destruct act as [item fr|i|tk event fr|tk event fr|event fr];
    simpl in Hrun.
  - by injection Hrun as <-.
  - by injection Hrun as <-.
  - destruct (on_click_shape tk event fr a)
      as (index & a1 & _ & Hrun1 & _ & _ & Hd & Hs & Hdrop & Hlast & Hsel).
    rewrite Hrun in Hrun1. injection Hrun1 as <-.
    split; [by apply Hsel, strictly_sorted_NoDup|]. split; [done|].
    rewrite Hd, Hs, Hdrop. split; [|done]. split; [done|]. by intros [? ?].
  - destruct (drag_start_index a) as [start|] eqn:Hst.
    + destruct (on_drag_shape tk event fr a start Hst) as [x Hrun1].
      rewrite Hrun in Hrun1. injection Hrun1 as ->. simpl.
      split; [done|]. split; [done|]. split; [|by eexists].
      split; [by eexists|done].
    + unfold _on_drag in Hrun. rewrite Hst in Hrun.
      injection Hrun as <-. by rewrite Hst.
  - apply on_release_cases in Hrun
      as [[-> _]|[(-> & _)|(_ & _ & Hne & ps & fs & dest & ->)]].
    + done.
    + destruct (hide_insert_bar_fields a)
        as (_ & _ & -> & -> & -> & -> & -> & _). done.
    + destruct (hide_insert_bar_fields a) as (_ & _ & _ & Hl & _).
      simpl. split; [apply range_strictly_sorted|].
      split; [intros _; rewrite Hl; by apply Hanchor|].
      split; [|done]. split; [done|]. by intros [? ?].
Qed.

(** In every state of a session the selection is a strictly ascending
    list, so it has no duplicates and the sort the release handler starts
    with leaves it as it is. *)
Theorem selection_always_ascending a :
  reachable a →
  StronglySorted Z.lt (selected_indices a)
  ∧ NoDup (selected_indices a)
  ∧ Py.sorted (selected_indices a) = selected_indices a.
Proof.
  intros (Hsorted & _)%reachable_coherent. split; [done|].
  split; [by apply strictly_sorted_NoDup|].
  by apply sorted_of_strictly_sorted.
Qed.

Lemma selection_always_ascending_witness :
  selected_indices Demo.range_selected = [0; 1]
  ∧ StronglySorted Z.lt (selected_indices Demo.range_selected)
  ∧ Py.sorted (selected_indices Demo.range_selected) = [0; 1].
Proof.
  destruct (selection_always_ascending Demo.range_selected)
    as (Hsorted & _ & Hsame); [exact reachable_range_selected|].
  split; [reflexivity|]. split; [exact Hsorted|exact Hsame].
Defined.

(** In every state of a session, a non-empty selection comes with an
    anchor, and the anchor is a position of the collection. *)
Theorem anchor_defined_when_selected a :
  reachable a →
  (selected_indices a ≠ [] → is_Some (last_clicked_index a))
  ∧ ∀ i, last_clicked_index a = Some i → 0 ≤ i < Py.len (pages a).
Proof.
  intros Ha. split; [by apply reachable_coherent|].
  by apply reachable_Inv.
Qed.

Lemma anchor_defined_when_selected_witness :
  is_Some (last_clicked_index
             (set_drag false (Some 0) None
                (set_last_clicked_index (Some 0)
                   (set_selected_indices [0] Sample.fresh))))
  ∧ 0 ≤ 0 < Py.len (pages Sample.fresh).
Proof.
  destruct (anchor_defined_when_selected
              (set_drag false (Some 0) None
                 (set_last_clicked_index (Some 0)
                    (set_selected_indices [0] Sample.fresh))))
    as [Hanchor Hrange].
  - apply (reachable_step Sample.fresh
             (Click Sample.tk (Sample.plain 20) (Sample.frame 0)));
      [exact reachable_fresh|unfold aimed; by_computing|reflexivity].
  - split; [apply Hanchor; discriminate|apply (Hrange 0); reflexivity].
Defined.

(** In every state of a session a drag is active exactly when a drop index
    is pending, the origin of an active drag is set, and a pending drop
    index lies in [0, N]: the release handler's test for a missing drop
    index never decides anything once the drag is active. *)
Theorem drag_state_coherent a :
  reachable a →
  (dragging a = true ↔ is_Some (drop_index a))
  ∧ (dragging a = true → is_Some (drag_start_index a))
  ∧ ∀ d, drop_index a = Some d → 0 ≤ d ≤ Py.len (pages a).
Proof.
  intros Ha. destruct (reachable_coherent a Ha) as (_ & _ & Hd & Hs).
  split; [done|]. split; [done|]. by apply reachable_Inv.
Qed.

Lemma drag_state_coherent_witness :
  dragging Demo.mid_drag = true
  ∧ is_Some (drop_index Demo.mid_drag)
  ∧ is_Some (drag_start_index Demo.mid_drag)
  ∧ 0 ≤ 1 ≤ Py.len (pages Demo.mid_drag).
Proof.
  destruct (drag_state_coherent Demo.mid_drag)
    as (Hiff & Hstart & Hbound); [exact reachable_mid_drag|].
  split; [reflexivity|]. split; [apply Hiff; reflexivity|].
  split; [apply Hstart; reflexivity|apply (Hbound 1); reflexivity].
Defined.

(** ** Relocation on paired and mapped lists *)

Section IndexFilters.

Context (P : Z → Prop) `{∀ z, Decision (P z)}.

Lemma index_filter_zip {B C} k (ps : list B) (fs : list C) :
  (filter (λ e, P e.1) (Py.enumerate_from k (zip ps fs))).*2
  = zip (filter (λ e, P e.1) (Py.enumerate_from k ps)).*2
        (filter (λ e, P e.1) (Py.enumerate_from k fs)).*2.
Proof.
  revert k fs. induction ps as [|p ps IH]; intros k [|f fs]; try done.
  { simpl. by rewrite zip_with_nil_r. }
  simpl zip_with. rewrite !enumerate_from_cons, !filter_cons. simpl.
  destruct (decide (P k)); simpl; by rewrite IH.
Qed.

Lemma index_filter_fmap {B C} (g : B → C) k (l : list B) :
  (filter (λ e, P e.1) (Py.enumerate_from k (g <$> l))).*2
  = g <$> (filter (λ e, P e.1) (Py.enumerate_from k l)).*2.
Proof.
  revert k. induction l as [|b l IH]; intros k; [done|].
  rewrite fmap_cons, !enumerate_from_cons, !filter_cons. simpl.
  destruct (decide (P k)); simpl; by rewrite IH.
Qed.

End IndexFilters.

Lemma kept_zip {B C} (ps : list B) (fs : list C) sel :
  kept (zip ps fs) sel = zip (kept ps sel) (kept fs sel).
Proof. exact (index_filter_zip (λ z, z ∉ sel) 0 ps fs). Qed.

Lemma moved_zip {B C} (ps : list B) (fs : list C) sel :
  moved (zip ps fs) sel = zip (moved ps sel) (moved fs sel).
Proof. exact (index_filter_zip (λ z, z ∈ sel) 0 ps fs). Qed.

Lemma kept_fmap {B C} (g : B → C) (l : list B) sel :
  kept (g <$> l) sel = g <$> kept l sel.
Proof. exact (index_filter_fmap (λ z, z ∉ sel) g 0 l). Qed.

Lemma moved_fmap {B C} (g : B → C) (l : list B) sel :
  moved (g <$> l) sel = g <$> moved l sel.
Proof. exact (index_filter_fmap (λ z, z ∈ sel) g 0 l). Qed.

Lemma relocated_zip {B C} (ps : list B) (fs : list C) sel dest :
  length fs = length ps →
  NoDup sel → in_range (Py.len ps) sel →
  relocated (zip ps fs) sel dest
  = zip (relocated ps sel dest) (relocated fs sel dest).
Proof.
  intros Hlen Hnd Hr.
  assert (in_range (Py.len fs) sel) as Hrf
    by (unfold Py.len in *; by rewrite Hlen).
  pose proof (length_kept_sel ps sel Hnd Hr) as Hkp.
  pose proof (length_kept_sel fs sel Hnd Hrf) as Hkf.
  pose proof (length_moved_sel ps sel Hnd Hr) as Hmp.
  pose proof (length_moved_sel fs sel Hnd Hrf) as Hmf.
  unfold relocated. rewrite kept_zip, moved_zip.
  rewrite zip_with_take, zip_with_drop.
  rewrite !zip_with_app; [done| |];
    unfold Py.len in *; rewrite ?length_take; lia.
Qed.

Lemma relocated_fmap {B C} (g : B → C) (l : list B) sel dest :
  relocated (g <$> l) sel dest = g <$> relocated l sel dest.
Proof.
  unfold relocated. rewrite kept_fmap, moved_fmap.
  by rewrite !fmap_app, fmap_take, fmap_drop.
Qed.

(** A relocation moves each page together with its own frame: the pairs of
    page and frame are relocated as one list, so none is split and the
    pairs afterwards are those before. *)
Theorem relocation_keeps_pages_with_frames event frame a d :
  length (page_frames a) = length (pages a) →
  dragging a = true → drop_index a = Some d →
  selected_indices a ≠ [] → NoDup (selected_indices a) →
  in_range (Py.len (pages a)) (selected_indices a) →
  0 ≤ d ≤ Py.len (pages a) →
  let sel := selected_indices a in
  let dest := d - count_before sel d in
  ∃ a', _on_release event frame a = Ok a'
    ∧ zip (pages a') (page_frames a')
      = relocated (zip (pages a) (page_frames a)) sel dest
    ∧ zip (pages a') (page_frames a') ≡ₚ zip (pages a) (page_frames a).
Proof.
  intros Hlock Hdrag Hdrop Hne Hnd Hr Hd sel dest.
  eexists. split; [by apply on_release_relocates|]. simpl.
  fold sel dest. rewrite <- relocated_zip by done.
  split; [done|apply relocated_perm].
Qed.

Lemma relocation_keeps_pages_with_frames_witness :
  ∃ a', _on_release (Sample.plain 0) (Sample.frame 3) Sample.dragging_BD
        = Ok a'
    ∧ zip (pages a') (page_frames a')
      = [(Sample.A, Sample.frame 0); (Sample.B, Sample.frame 1);
         (Sample.D, Sample.frame 3); (Sample.C, Sample.frame 2)].
Proof.
  destruct (relocation_keeps_pages_with_frames (Sample.plain 0)
              (Sample.frame 3) Sample.dragging_BD 1)
    as (a' & Hrun & Hzip & _);
    [reflexivity|reflexivity|reflexivity|discriminate
    |by_computing|by_computing|vm_compute; split; discriminate|].
  exists a'. split; [exact Hrun|exact Hzip].
Defined.

(** A relocation changes the order in which pages are exported and
    nothing else: the request built afterwards is a permutation of the one
    before, and when every page is included it is the old request
    relocated in the same way. *)
Theorem relocation_permutes_export_request event frame a d :
  length (page_frames a) = length (pages a) →
  dragging a = true → drop_index a = Some d →
  selected_indices a ≠ [] → NoDup (selected_indices a) →
  in_range (Py.len (pages a)) (selected_indices a) →
  0 ≤ d ≤ Py.len (pages a) →
  let sel := selected_indices a in
  let dest := d - count_before sel d in
  ∃ a', _on_release event frame a = Ok a'
    ∧ build (pages a') ≡ₚ build (pages a)
    ∧ (Forall (λ item, include_var item = true) (pages a) →
       build (pages a') = relocated (build (pages a)) sel dest).
Proof.
  intros Hlock Hdrag Hdrop Hne Hnd Hr Hd sel dest.
  eexists. split; [by apply on_release_relocates|]. simpl.
  fold sel dest. split.
  - unfold build. by rewrite relocated_perm.
  - intros Hall. unfold build.
    rewrite (filter_all _ (pages a)) by (by apply Forall_forall).
    rewrite filter_all; [by rewrite relocated_fmap|].
    intros item Hitem. rewrite relocated_perm in Hitem.
    rewrite Forall_forall in Hall. by apply Hall.
Qed.

Lemma relocation_permutes_export_request_witness :
  ∃ a', _on_release (Sample.plain 0) (Sample.frame 3) Sample.dragging_BD
        = Ok a'
    ∧ build (pages a')
      = [("doc.pdf", 0); ("doc.pdf", 1); ("doc.pdf", 3); ("doc.pdf", 2)].
Proof.
  destruct (relocation_permutes_export_request (Sample.plain 0)
              (Sample.frame 3) Sample.dragging_BD 1)
    as (a' & Hrun & _ & Hall);
    [reflexivity|reflexivity|reflexivity|discriminate
    |by_computing|by_computing|vm_compute; split; discriminate|].
  exists a'. split; [exact Hrun|]. apply Hall. repeat constructor.
Defined.

(** ** What the user sees of a relocation *)

Lemma highlighted_from k (frames : list widget) sel :
  (filter (λ v : widget * bool, v.2 = true)
     ((λ '(i, fr), (fr, Py.contains i sel))
        <$> Py.enumerate_from k frames)).*1
  = (filter (λ e, e.1 ∈ sel) (Py.enumerate_from k frames)).*2.
Proof.
  revert k. induction frames as [|fr frames IH]; intros k; [done|].
  rewrite enumerate_from_cons, fmap_cons, !filter_cons. simpl.
  unfold Py.contains at 1.
  destruct (decide (k ∈ sel)) as [Hk|Hk].
  - rewrite decide_True by (by apply bool_decide_eq_true_2).
    simpl. by rewrite IH.
  - rewrite decide_False
      by (intros Hb; by apply bool_decide_eq_true_1 in Hb).
    by rewrite IH.
Qed.

Lemma highlighted_moved a :
  highlighted a = moved (page_frames a) (selected_indices a).
Proof. apply highlighted_from. Qed.

(** The frames drawn as selected are those at the selected positions, and
    a relocation leaves the same frames drawn as selected, in the same
    order: the highlight follows the moved pages. *)
Theorem highlight_follows_moved_pages event frame a d :
  length (page_frames a) = length (pages a) →
  dragging a = true → drop_index a = Some d →
  selected_indices a ≠ [] → NoDup (selected_indices a) →
  in_range (Py.len (pages a)) (selected_indices a) →
  0 ≤ d ≤ Py.len (pages a) →
  ∃ a', _on_release event frame a = Ok a'
    ∧ highlighted a = moved (page_frames a) (selected_indices a)
    ∧ highlighted a' = highlighted a.
Proof.
  intros Hlock Hdrag Hdrop Hne Hnd Hr Hd.
  eexists. split; [by apply on_release_relocates|].
  split; [apply highlighted_moved|].
  rewrite !highlighted_moved. simpl.
  assert (Py.len (page_frames a) = Py.len (pages a)) as Hlen
    by (unfold Py.len; lia).
  apply relocated_halves; rewrite ?Hlen; try done.
  by apply count_before_bounds.
Qed.

Lemma highlight_follows_moved_pages_witness :
  ∃ a', _on_release (Sample.plain 0) (Sample.frame 3) Sample.dragging_BD
        = Ok a'
    ∧ highlighted a' = [Sample.frame 1; Sample.frame 3].
Proof.
  destruct (highlight_follows_moved_pages (Sample.plain 0)
              (Sample.frame 3) Sample.dragging_BD 1)
    as (a' & Hrun & _ & Hsame);
    [reflexivity|reflexivity|reflexivity|discriminate
    |by_computing|by_computing|vm_compute; split; discriminate|].
  exists a'. split; [exact Hrun|]. rewrite Hsame. reflexivity.
Defined.

(** ** A whole gesture *)

Lemma index_of_frame_at a (i : nat) f :
  NoDup (page_frames a) → page_frames a !! i = Some f →
  _index_from_frame_or_child a f = Ok (Z.of_nat i).
Proof.
  intros Hnd Hf.
  assert (f ∈ page_frames a) as Hin by (apply list_elem_of_lookup; eauto).
  unfold _index_from_frame_or_child.
  rewrite walk_up_page_frame by done. unfold Py.contains.
  rewrite bool_decide_eq_true_2 by done.
  destruct (index_ok _ _ Hin) as (j & Hj & _). rewrite Hj.
  destruct (index_first _ _ _ Hj) as (Hb & Hx & _).
  pose proof (NoDup_lookup _ _ _ _ Hnd Hx Hf). f_equal. lia.
Qed.

Lemma range_singleton d : Py.range d (d + 1) = [d].
Proof.
  unfold Py.range. replace (Z.to_nat (d + 1 - d)) with 1%nat by lia.
  simpl. f_equal. lia.
Qed.

Lemma count_before_singleton i d :
  count_before [i] d = if i <? d then 1 else 0.
Proof.
  unfold count_before, Py.len. rewrite filter_cons, filter_nil.
  destruct (Z.ltb_spec i d); [by rewrite decide_True|by rewrite decide_False by lia].
Qed.

(** Pressing the page at position [i] without modifiers, moving and
    releasing moves that one page: with d the drop index of the pointer
    when it was last moved, the page ends up at d - 1 if it stood before d
    and at d otherwise, it is the selection afterwards, and the other
    pages keep their order. *)
Theorem single_page_drag tk press move up frame a (i : nat) :
  length (page_frames a) = length (pages a) →
  NoDup (page_frames a) → page_frames a !! i = Some frame →
  shift_of press = false → ctrl_of tk press = false →
  let d := _compute_drop_index tk a
             (inject_Z (x_root move - inner_rootx tk)) in
  let dest := if Z.of_nat i <? d then d - 1 else d in
  ∃ a', run_all [Click tk press frame; Drag tk move frame;
                 Release up frame] a = Ok a'
    ∧ pages a' = relocated (pages a) [Z.of_nat i] dest
    ∧ pages a' !! Z.to_nat dest = pages a !! i
    ∧ kept (pages a') [dest] = kept (pages a) [Z.of_nat i]
    ∧ selected_indices a' = [dest]
    ∧ 0 ≤ dest < Py.len (pages a).
Proof.
  intros Hlock Hnd Hframe Hshift Hctrl d dest.
  pose proof (lookup_lt_Some _ _ _ Hframe) as Hi.
  pose proof (compute_drop_index_bounds tk a
                (inject_Z (x_root move - inner_rootx tk))) as Hd.
  fold d in Hd.
  assert (Py.len (page_frames a) = Py.len (pages a)) as Hlen
    by (unfold Py.len; lia).
  rewrite Hlen in Hd.
  (* the click *)
  set (a1 := set_drag false (Some (Z.of_nat i)) None
               (set_last_clicked_index (Some (Z.of_nat i))
                  (set_selected_indices [Z.of_nat i] a))).
  assert (_on_click tk press frame a = Ok a1) as Hclick.
  { unfold _on_click. rewrite (index_of_frame_at a i frame) by done. simpl.
    rewrite Hshift, Hctrl. by rewrite click_select_plain by (by left). }
  (* the motion *)
  destruct (on_drag_shape tk move frame a1 (Z.of_nat i) eq_refl)
    as [x Hdrag].
  change (_compute_drop_index tk a1 _) with d in Hdrag.
  set (a2 := set_insert_bar (Some x)
               (set_drag true (Some (Z.of_nat i)) (Some d) a1)) in Hdrag.
  (* the release *)
  assert (in_range (Py.len (pages a)) [Z.of_nat i]) as Hr.
  { apply Forall_singleton. unfold Py.len. lia. }
  pose proof (on_release_relocates up frame a2 d Hlock eq_refl eq_refl
                ltac:(done) (NoDup_singleton _) Hr Hd) as Hrelease.
  cbv zeta in Hrelease. simpl in Hrelease.
  rewrite count_before_singleton in Hrelease.
  replace (d - (if Z.of_nat i <? d then 1 else 0)) with dest in Hrelease
    by (subst dest; destruct (Z.of_nat i <? d); lia).
  change (Py.len [Z.of_nat i]) with 1 in Hrelease.
  rewrite range_singleton in Hrelease.
  eexists. split.
  { unfold run_all. simpl. rewrite Hclick. simpl. rewrite Hdrag. simpl.
    rewrite Hrelease. reflexivity. }
  simpl.
  assert (0 ≤ dest ≤ Py.len (pages a) - Py.len [Z.of_nat i]) as Hdest.
  { pose proof (count_before_bounds _ [Z.of_nat i] d
                  (NoDup_singleton _) Hr Hd) as Hb.
    rewrite count_before_singleton in Hb.
    subst dest. destruct (Z.of_nat i <? d); lia. }
  change (Py.len [Z.of_nat i]) with 1 in Hdest.
  destruct (relocated_halves (pages a) [Z.of_nat i] dest
              (NoDup_singleton _) Hr Hdest) as [Hm Hk].
  change (Py.len [Z.of_nat i]) with 1 in Hm, Hk.
  rewrite range_singleton in Hm, Hk.
  split; [done|]. split; [|split; [done|split; [done|lia]]].
  destruct (lookup_lt_is_Some_2 (pages a) i) as [p Hp]; [lia|].
  assert (moved (pages a) [Z.of_nat i] = [p]) as Hmoved.
  { rewrite (moved_cons _ _ _ p); [by rewrite moved_nil| |lia|].
    - by intros j ?%elem_of_nil.
    - by rewrite Nat2Z.id. }
  rewrite Hp. unfold relocated. rewrite Hmoved.
  pose proof (length_kept_sel (pages a) [Z.of_nat i]
                (NoDup_singleton _) Hr) as Hkl.
  change (Py.len [Z.of_nat i]) with 1 in Hkl. unfold Py.len in *.
  rewrite lookup_app_r by (rewrite length_take; lia).
  rewrite length_take.
  replace (Z.to_nat dest - _)%nat with 0%nat by lia. done.
Qed.

Lemma single_page_drag_witness :
  ∃ a', run_all [Click Sample.tk (Sample.plain 20) (Sample.frame 0);
                 Drag Sample.tk (Sample.plain 300) (Sample.frame 0);
                 Release (Sample.plain 300) (Sample.frame 0)]
          Demo.three_pages = Ok a'
    ∧ pages a' = [Sample.B; Sample.C; Sample.A]
    ∧ selected_indices a' = [2].
Proof.
  destruct (single_page_drag Sample.tk (Sample.plain 20) (Sample.plain 300)
              (Sample.plain 300) (Sample.frame 0) Demo.three_pages 0)
    as (a' & Hrun & Hpages & _ & _ & Hsel & _);
    [reflexivity|by_computing|reflexivity|reflexivity|reflexivity|].
  exists a'. split; [exact Hrun|]. split; [exact Hpages|exact Hsel].
Defined.

(** * Properties of import *)

Lemma extended_nil prov a : extended prov [] a = a.
Proof.
  destruct a. unfold extended, set_lists. simpl. by rewrite !app_nil_r.
Qed.

Lemma extended_app prov items1 items2 a :
  extended prov items2 (extended prov items1 a)
  = extended prov (items1 ++ items2) a.
Proof.
  unfold extended, set_lists. simpl.
  rewrite !length_app, length_fmap, length_seq, seq_app, fmap_app.
  by rewrite !app_assoc.
Qed.

Lemma extended_one prov item a :
  import_page item (new_frame prov (length (page_frames a))) a
  = extended prov [item] a.
Proof. done. Qed.

Lemma import_doc_page_ok prov path a i h :
  render prov path i = Ok h →
  import_doc_page prov path a i
  = (extended prov [imported_item path i h] a, Ok ()).
Proof.
  intros Hr. unfold import_doc_page. rewrite Hr. destruct h as [img ph].
  unfold _create_page_frame. simpl.
  rewrite (getitem_ok _ _ (imported_item path i (img, ph)));
    [done|unfold Py.len; rewrite length_app; simpl; lia|].
  unfold Py.len. rewrite length_app. simpl.
  replace (Z.to_nat _) with (length (pages a)) by lia.
  by rewrite list_lookup_middle.
Qed.

Lemma import_doc_page_raise prov path a i e :
  render prov path i = Raise e →
  import_doc_page prov path a i = (a, Raise e).
Proof. intros Hr. unfold import_doc_page. by rewrite Hr. Qed.

Lemma for_each_st_grows {B} prov (P : PageItem → Prop) (xs : list B)
    (body : App → B → App * result unit) a :
  (∀ a x, x ∈ xs →
     ∃ items, (body a x).1 = extended prov items a ∧ Forall P items) →
  ∃ items, (for_each_st xs body a).1 = extended prov items a
    ∧ Forall P items.
Proof.
  revert a. induction xs as [|x xs IH]; intros a Hbody.
  { exists []. by rewrite extended_nil. }
  simpl. destruct (Hbody a x) as (items1 & H1 & HP1); [by left|].
  destruct (body a x) as [a1 [[]|e]] eqn:Hbx; simpl in H1; subst a1.
  - destruct (IH (extended prov items1 a)) as (items2 & H2 & HP2).
    { intros a' y Hy. apply Hbody. by right. }
    exists (items1 ++ items2). rewrite H2, extended_app.
    split; [done|by apply Forall_app].
  - by exists items1.
Qed.

Lemma import_pages_ok prov path (thumbs : Z → nat * nat) (idx : list Z) a :
  (∀ i, i ∈ idx → render prov path i = Ok (thumbs i)) →
  for_each_st idx (import_doc_page prov path) a
  = (extended prov ((λ i, imported_item path i (thumbs i)) <$> idx) a,
     Ok ()).
Proof.
  revert a. induction idx as [|i idx IH]; intros a Hr.
  { simpl. by rewrite extended_nil. }
  simpl. rewrite (import_doc_page_ok _ _ _ _ (thumbs i)) by (apply Hr; by left).
  rewrite IH by (intros j Hj; apply Hr; by right).
  by rewrite extended_app.
Qed.

Lemma import_docs_ok m prov count thumbs (good : list string) a :
  has_fitz m = true →
  (∀ path, path ∈ good → fitz_open prov path = Ok (count path)) →
  (∀ path i, path ∈ good → 0 ≤ i < Z.of_nat (count path) →
     render prov path i = Ok (thumbs path i)) →
  for_each_st good (import_doc m prov) a
  = (extended prov (good ≫= document_pages count thumbs) a, Ok ()).
Proof.
  intros Hfitz. revert a.
  induction good as [|path good IH]; intros a Hopen Hrender.
  { simpl. by rewrite extended_nil. }
  simpl. unfold import_doc at 1. rewrite Hfitz. simpl.
  rewrite Hopen by (by left).
  rewrite (import_pages_ok _ _ (thumbs path)).
  2:{ intros i Hi%elem_of_range. apply Hrender; [by left|lia]. }
  rewrite IH.
  - by rewrite extended_app.
  - intros p Hp. apply Hopen. by right.
  - intros p i Hp Hi. apply Hrender; [by right|done].
Qed.

Lemma reachable_extended prov items a :
  reachable a → reachable (extended prov items a).
Proof.
  intros Ha. induction items as [|item items IH] using rev_ind.
  { by rewrite extended_nil. }
  rewrite <- extended_app, <- extended_one.
  exact (reachable_step _
           (Import item
              (new_frame prov (length (page_frames (extended prov items a)))))
           _ IH I eq_refl).
Qed.

Lemma import_grows m prov paths a :
  ∃ items,
    (_import_pdfs m prov paths a).1 = extended prov items a
    ∧ Forall (λ item,
        include_var item = true ∧ source_path item ∈ paths
        ∧ ∃ n, fitz_open prov (source_path item) = Ok n
               ∧ 0 ≤ page_index item < Z.of_nat n) items.
Proof.
  unfold _import_pdfs. apply for_each_st_grows.
  intros a' path Hpath. unfold import_doc.
  destruct (has_fitz m); simpl;
    [|exists []; by rewrite extended_nil].
  destruct (fitz_open prov path) as [n|e] eqn:Hopen;
    [|exists []; by rewrite extended_nil].
  destruct (for_each_st_grows prov
              (λ item, include_var item = true ∧ source_path item = path
                       ∧ 0 ≤ page_index item < Z.of_nat n)
              (Py.range 0 (Z.of_nat n)) (import_doc_page prov path) a')
    as (items & Hitems & HP).
  { intros a'' i Hi%elem_of_range.
    destruct (render prov path i) as [h|e] eqn:Hr.
    - rewrite (import_doc_page_ok _ _ _ _ h) by done.
      eexists. split; [done|]. apply Forall_singleton. simpl.
      split; [done|]. split; [done|lia].
    - rewrite (import_doc_page_raise _ _ _ _ e) by done.
      exists []. by rewrite extended_nil. }
  exists items. split; [done|].
  eapply Forall_impl; [exact HP|]. intros item (? & Hsrc & ?).
  split; [done|]. rewrite Hsrc. split; [done|]. by exists n.
Qed.

(** Whatever the rendering side does, and whether [_import_pdfs] returns
    or raises midway, it only appends: the state afterwards is the state
    before with some items appended to the collection and one new frame
    per item appended to the row, so pages imported before a failure stay.
    Every appended item is included, comes from one of the chosen files,
    and names a page of a document that opened. Selection, anchor and
    drag state are untouched. *)
Theorem import_only_appends m prov paths a :
  ∃ items,
    let a' := (_import_pdfs m prov paths a).1 in
    a' = extended prov items a
    ∧ pages a' = pages a ++ items
    ∧ length (page_frames a')
      = (length (page_frames a) + length items)%nat
    ∧ take (length (page_frames a)) (page_frames a') = page_frames a
    ∧ selected_indices a' = selected_indices a
    ∧ last_clicked_index a' = last_clicked_index a
    ∧ dragging a' = dragging a ∧ drop_index a' = drop_index a
    ∧ Forall (λ item,
        include_var item = true ∧ source_path item ∈ paths
        ∧ ∃ n, fitz_open prov (source_path item) = Ok n
               ∧ 0 ≤ page_index item < Z.of_nat n) items.
Proof.
  destruct (import_grows m prov paths a) as (items & Ha' & Hitems).
  exists items. cbv zeta. rewrite Ha'. simpl.
  rewrite length_app, length_fmap, length_seq, take_app_length.
  repeat split; done.
Qed.

(** An import leaves a state a session can be in: from a reachable state
    it gives a reachable state, in every outcome, so the state invariant
    (lock step of pages and frames, selection and anchor in range) holds
    after it. *)
Theorem import_keeps_session_invariant m prov paths a :
  reachable a →
  let a' := (_import_pdfs m prov paths a).1 in
  reachable a' ∧ Inv a'.
Proof.
  intros Ha. cbv zeta.
  destruct (import_grows m prov paths a) as (items & -> & _).
  pose proof (reachable_extended prov items a Ha) as Hr.
  split; [done|by apply reachable_Inv].
Qed.

Lemma import_keeps_session_invariant_witness :
  Inv (_import_pdfs Demo.all_imports Demo.provider
         ["a.pdf"; "missing.pdf"; "b.pdf"] init).1.
Proof.
  apply (import_keeps_session_invariant Demo.all_imports Demo.provider
           ["a.pdf"; "missing.pdf"; "b.pdf"] init).
  apply reachable_init.
Defined.

(** When every chosen file opens and every page renders, the import
    returns, the collection grows by the pages of the files, file by file
    in the order chosen and page by page, all included, and [on_add_pdfs]
    reports the number of files and the new total in the status line. *)
Theorem import_appends_documents_in_order m prov count thumbs paths a ui :
  has_fitz m = true →
  paths ≠ [] →
  (∀ path, path ∈ paths → fitz_open prov path = Ok (count path)) →
  (∀ path i, path ∈ paths → 0 ≤ i < Z.of_nat (count path) →
     render prov path i = Ok (thumbs path i)) →
  let items := paths ≫= document_pages count thumbs in
  _import_pdfs m prov paths a = (extended prov items a, Ok ())
  ∧ pages (extended prov items a) = pages a ++ items
  ∧ on_add_pdfs m prov paths a ui
    = (extended prov items a,
       set_status
         ("Loaded " +:+ pretty (Py.len paths) +:+ " file(s), total pages: "
            +:+ pretty (Py.len (pages a) + Py.len items))
         (open_dialog AskOpenFiles ui)).
Proof.
  intros Hfitz Hne Hopen Hrender items.
  assert (_import_pdfs m prov paths a = (extended prov items a, Ok ()))
    as Himport by (by apply import_docs_ok).
  split; [done|]. split; [done|].
  unfold on_add_pdfs. destruct paths as [|p paths']; [done|].
  rewrite Himport. simpl. unfold Py.len. rewrite length_app.
  by rewrite Nat2Z.inj_add.
Qed.

Lemma import_appends_documents_in_order_witness :
  on_add_pdfs Demo.all_imports Demo.provider ["b.pdf"; "a.pdf"] init init_ui
  = (extended Demo.provider
       [imported_item "b.pdf" 0 (0, 0)%nat; imported_item "a.pdf" 0 (0, 0)%nat;
        imported_item "a.pdf" 1 (0, 0)%nat] init,
     {| status := "Loaded 2 file(s), total pages: 3";
        dialogs := [AskOpenFiles] |}).
Proof.
  apply (import_appends_documents_in_order Demo.all_imports Demo.provider
           (λ path, if String.eqb path "a.pdf" then 2 else 1)%nat
           (λ _ _, (0, 0)%nat) ["b.pdf"; "a.pdf"] init init_ui).
  - reflexivity.
  - discriminate.
  - intros path Hpath. repeat (apply elem_of_cons in Hpath as [->|Hpath];
      [reflexivity|]). by apply elem_of_nil in Hpath.
  - reflexivity.
Defined.

(** The import stops at the first file that cannot be opened: the files
    chosen before it are imported in full, none after it is touched, the
    exception of [fitz.open] reaches [on_add_pdfs], which shows it in an
    error dialog and leaves the status line as it was. *)
Theorem import_stops_at_first_unreadable m prov count thumbs
    good bad rest e a ui :
  has_fitz m = true →
  (∀ path, path ∈ good → fitz_open prov path = Ok (count path)) →
  (∀ path i, path ∈ good → 0 ≤ i < Z.of_nat (count path) →
     render prov path i = Ok (thumbs path i)) →
  fitz_open prov bad = Raise e →
  let items := good ≫= document_pages count thumbs in
  _import_pdfs m prov (good ++ bad :: rest) a
  = (extended prov items a, Raise e)
  ∧ on_add_pdfs m prov (good ++ bad :: rest) a ui
    = (extended prov items a,
       open_dialog (ShowFailure "Error" "Failed to import PDFs:" e)
         (open_dialog AskOpenFiles ui))
  ∧ status (on_add_pdfs m prov (good ++ bad :: rest) a ui).2 = status ui.
Proof.
  intros Hfitz Hopen Hrender Hbad items.
  assert (∀ {B S} (xs ys : list B) (body : S → B → S * result unit) s s',
            for_each_st xs body s = (s', Ok ()) →
            for_each_st (xs ++ ys) body s = for_each_st ys body s')
    as Happ.
  { intros B S xs ys body. induction xs as [|x xs IH]; intros s s' Hrun.
    - by injection Hrun as ->.
    - simpl in *. destruct (body s x) as [s1 [[]|e']]; [by apply IH|done]. }
  assert (_import_pdfs m prov (good ++ bad :: rest) a
          = (extended prov items a, Raise e)) as Himport.
  { unfold _import_pdfs.
    rewrite (Happ _ _ _ _ _ _ _
               (import_docs_ok m prov count thumbs good a Hfitz Hopen Hrender)).
    simpl. unfold import_doc at 1. by rewrite Hfitz, Hbad. }
  split; [done|].
  assert (on_add_pdfs m prov (good ++ bad :: rest) a ui
          = (extended prov items a,
             open_dialog (ShowFailure "Error" "Failed to import PDFs:" e)
               (open_dialog AskOpenFiles ui))) as Hadd.
  { unfold on_add_pdfs. rewrite Himport.
    destruct (good ++ bad :: rest) eqn:Hl; [|done].
    by destruct good. }
  split; [done|]. by rewrite Hadd.
Qed.

Lemma import_stops_at_first_unreadable_witness :
  on_add_pdfs Demo.all_imports Demo.provider
    ["a.pdf"; "missing.pdf"; "b.pdf"] init init_ui
  = (extended Demo.provider
       [imported_item "a.pdf" 0 (0, 0)%nat; imported_item "a.pdf" 1 (0, 0)%nat]
       init,
     {| status := "Ready";
        dialogs := [AskOpenFiles;
                    ShowFailure "Error" "Failed to import PDFs:"
                      (FileNotFoundError "missing.pdf")] |}).
Proof.
  apply (import_stops_at_first_unreadable Demo.all_imports Demo.provider
           (λ _, 2%nat) (λ _ _, (0, 0)%nat) ["a.pdf"] "missing.pdf" ["b.pdf"]
           (FileNotFoundError "missing.pdf") init init_ui).
  - reflexivity.
  - intros path Hpath. apply elem_of_cons in Hpath as [->|Hpath];
      [reflexivity|by apply elem_of_nil in Hpath].
  - reflexivity.
  - reflexivity.
Defined.

(** Without pymupdf nothing is imported: for any files chosen,
    [on_add_pdfs] leaves the collection and the status line as they were
    and shows the error raised by [_import_pdfs] for the first file. *)
Theorem import_without_pymupdf m prov paths a ui :
  has_fitz m = false → paths ≠ [] →
  _import_pdfs m prov paths a
  = (a, Raise (RuntimeError "pymupdf not installed"))
  ∧ on_add_pdfs m prov paths a ui
    = (a, open_dialog
            (ShowFailure "Error" "Failed to import PDFs:"
               (RuntimeError "pymupdf not installed"))
            (open_dialog AskOpenFiles ui)).
Proof.
  intros Hfitz Hne. destruct paths as [|path paths]; [done|].
  assert (_import_pdfs m prov (path :: paths) a
          = (a, Raise (RuntimeError "pymupdf not installed"))) as Himport.
  { unfold _import_pdfs. simpl. unfold import_doc. by rewrite Hfitz. }
  split; [done|]. unfold on_add_pdfs. by rewrite Himport.
Qed.

Lemma import_without_pymupdf_witness :
  on_add_pdfs Demo.no_fitz Demo.provider ["a.pdf"] Sample.fresh init_ui
  = (Sample.fresh,
     {| status := "Ready";
        dialogs := [AskOpenFiles;
                    ShowFailure "Error" "Failed to import PDFs:"
                      (RuntimeError "pymupdf not installed")] |}).
Proof.
  apply (import_without_pymupdf Demo.no_fitz Demo.provider ["a.pdf"]
           Sample.fresh init_ui); [reflexivity|discriminate].
Defined.

(** * Properties of export *)

Section ExportProperties.

Context {page_content : Type}.
Implicit Types (fs : gmap string (list page_content)).
Implicit Types (st : @ExportState page_content).

Lemma getitem_raises {A} (l : list A) i e :
  Py.getitem l i = Raise e → e = IndexError.
Proof.
  unfold Py.getitem, Py.subscript.
  destruct (_ || _); simpl; [by intros [= <-]|].
  destruct (l !! _); [done|by intros [= <-]].
Qed.

Lemma opened_sources_app l1 l2 :
  opened_sources (l1 ++ l2) = opened_sources l1 ++ opened_sources l2.
Proof. apply omap_app. Qed.

Lemma written_files_app l1 l2 :
  written_files (l1 ++ l2) = written_files l1 ++ written_files l2.
Proof. apply omap_app. Qed.

(** The loop never writes a file. *)
Lemma export_loop_writes_nothing fs items st :
  written_files (log (export_loop fs items st).1) = written_files (log st).
Proof.
  revert st. induction items as [|item items IH]; intros st; [done|].
  simpl. destruct (include_var item); simpl; [|apply IH].
  unfold reader_for.
  destruct (readers st !! source_path item) as [reader|].
  - unfold add_page. destruct (Py.getitem reader _); [|done].
    rewrite IH. simpl. by rewrite written_files_app, app_nil_r.
  - destruct (fs !! source_path item) as [doc|]; simpl.
    + unfold add_page. simpl. destruct (Py.getitem doc _); simpl.
      * rewrite IH. simpl. by rewrite !written_files_app, !app_nil_r.
      * by rewrite written_files_app, app_nil_r.
    + by rewrite written_files_app, app_nil_r.
Qed.

(** The readers in the cache are the stored documents, before and after
    the loop. *)
Lemma export_loop_cache fs items st :
  (∀ path doc, readers st !! path = Some doc → fs !! path = Some doc) →
  ∀ path doc, readers (export_loop fs items st).1 !! path = Some doc →
              fs !! path = Some doc.
Proof.
  revert st. induction items as [|item items IH]; intros st Hcache; [done|].
  simpl. destruct (include_var item); simpl; [|by apply IH].
  unfold reader_for.
  destruct (readers st !! source_path item) as [reader|].
  - unfold add_page. destruct (Py.getitem reader _); [|done].
    by apply IH.
  - destruct (fs !! source_path item) as [doc|] eqn:Hdoc; simpl; [|done].
    assert (∀ path doc',
              <[source_path item := doc]> (readers st) !! path = Some doc' →
              fs !! path = Some doc') as Hcache'.
    { intros path doc'. destruct (decide (path = source_path item)) as [->|].
      - rewrite lookup_insert_eq. by intros [= <-].
      - rewrite lookup_insert_ne by done. apply Hcache. }
    unfold add_page. simpl. destruct (Py.getitem doc _); simpl; [|done].
    by apply IH.
Qed.

Lemma export_loop_app fs xs ys st st1 :
  export_loop fs xs st = (st1, Ok ()) →
  export_loop fs (xs ++ ys) st = export_loop fs ys st1.
Proof.
  revert st. induction xs as [|item xs IH]; intros st Hrun.
  { by injection Hrun as ->. }
  simpl in *. destruct (include_var item); simpl in *; [|by apply IH].
  destruct (reader_for fs (source_path item) st) as [st2 [reader|e]];
    [|done].
  destruct (add_page item reader st2) as [st3 [[]|e]]; [|done].
  by apply IH.
Qed.

(** If the loop returns, every reference of the request resolved and the
    writer received those pages. *)
Lemma export_loop_sound fs items st st' :
  (∀ path doc, readers st !! path = Some doc → fs !! path = Some doc) →
  export_loop fs items st = (st', Ok ()) →
  ∃ content, writer st' = writer st ++ content
    ∧ Forall2 (λ ref pg, fetch fs ref = Some pg) (build items) content.
Proof.
  revert st. induction items as [|item items IH]; intros st Hcache Hrun.
  { injection Hrun as <-. exists []. by rewrite app_nil_r. }
  rewrite build_cons. simpl in Hrun.
  destruct (include_var item); simpl in Hrun; [|by apply IH].
  unfold reader_for in Hrun.
  destruct (readers st !! source_path item) as [reader|] eqn:Hreader.
  - unfold add_page in Hrun.
    destruct (Py.getitem reader (page_index item)) as [pg|] eqn:Hget;
      [|done].
    apply IH in Hrun as (content & Hw & Hrefs); [|done].
    exists (pg :: content). simpl in Hw. rewrite Hw, <- app_assoc.
    split; [done|]. constructor; [|done].
    unfold fetch. simpl. rewrite (Hcache _ _ Hreader). simpl.
    by rewrite Hget.
  - destruct (fs !! source_path item) as [doc|] eqn:Hdoc; [|done].
    unfold add_page in Hrun. simpl in Hrun.
    destruct (Py.getitem doc (page_index item)) as [pg|] eqn:Hget;
      [|done].
    apply IH in Hrun as (content & Hw & Hrefs).
    + exists (pg :: content). simpl in Hw. rewrite Hw, <- app_assoc.
      split; [done|]. constructor; [|done].
      unfold fetch. simpl. rewrite Hdoc. simpl. by rewrite Hget.
    + simpl. intros path doc'.
      destruct (decide (path = source_path item)) as [->|].
      * rewrite lookup_insert_eq. by intros [= <-].
      * rewrite lookup_insert_ne by done. apply Hcache.
Qed.

(** Every source in the log was opened once, and for an included item;
    while the loop runs, what was opened is in the cache. *)
Lemma export_loop_opens fs items st :
  NoDup (opened_sources (log st)) →
  (∀ p, p ∈ opened_sources (log st) → is_Some (readers st !! p)) →
  let st' := (export_loop fs items st).1 in
  NoDup (opened_sources (log st'))
  ∧ ∀ p, p ∈ opened_sources (log st') →
      p ∈ opened_sources (log st)
      ∨ ∃ item, item ∈ items ∧ include_var item = true
                ∧ source_path item = p.
Proof.
  revert st. induction items as [|item items IH]; intros st Hnd Hin.
  { simpl. split; [done|]. by left. }
  assert (∀ st1,
            NoDup (opened_sources (log st1)) →
            (∀ p, p ∈ opened_sources (log st1) → is_Some (readers st1 !! p)) →
            (∀ p, p ∈ opened_sources (log st1) →
               p ∈ opened_sources (log st)
               ∨ include_var item = true ∧ source_path item = p) →
            let st' := (export_loop fs items st1).1 in
            NoDup (opened_sources (log st'))
            ∧ ∀ p, p ∈ opened_sources (log st') →
                p ∈ opened_sources (log st)
                ∨ ∃ item', item' ∈ item :: items ∧ include_var item' = true
                           ∧ source_path item' = p) as Hrest.
  { intros st1 Hnd1 Hin1 Hfrom.
    destruct (IH st1 Hnd1 Hin1) as [Hnd' Hfrom']. split; [done|].
    intros p [Hp|(item' & ? & ? & ?)]%Hfrom'.
    - destruct (Hfrom p Hp) as [?|[? ?]]; [by left|].
      right. exists item. split; [by left|done].
    - right. exists item'. split; [by right|done]. }
  simpl. destruct (include_var item) eqn:Hincl; simpl;
    [|apply Hrest; [done|done|]; intros p Hp; by left].
  unfold reader_for.
  destruct (readers st !! source_path item) as [reader|] eqn:Hreader.
  - unfold add_page. destruct (Py.getitem reader _); simpl.
    + apply Hrest; simpl; rewrite opened_sources_app, app_nil_r;
        [done|done|]. intros p Hp. by left.
    + split; [done|]. intros p Hp. by left.
  - assert (source_path item ∉ opened_sources (log st)) as Hnew.
    { intros [x Hx]%Hin. by rewrite Hreader in Hx. }
    assert (NoDup (opened_sources (log st ++ [OpenReader (source_path item)])))
      as Hnd1.
    { rewrite opened_sources_app. simpl. apply NoDup_app.
      split; [done|]. split; [|apply NoDup_singleton].
      intros p Hp ->%list_elem_of_singleton. done. }
    assert (∀ p, p ∈ opened_sources
                       (log st ++ [OpenReader (source_path item)]) →
                 p ∈ opened_sources (log st)
                 ∨ ∃ item', item' ∈ item :: items
                            ∧ include_var item' = true
                            ∧ source_path item' = p) as Hfrom1.
    { intros p. rewrite opened_sources_app. simpl.
      intros [Hp| ->%list_elem_of_singleton]%elem_of_app; [by left|].
      right. exists item. split; [by left|].
      split; [by destruct (include_var item)|done]. }
    destruct (fs !! source_path item) as [doc|] eqn:Hdoc; simpl;
      [|done].
    assert (∀ p, p ∈ opened_sources
                       (log st ++ [OpenReader (source_path item)]) →
                 is_Some (<[source_path item := doc]> (readers st) !! p))
      as Hin1.
    { intros p. rewrite opened_sources_app. simpl.
      intros [Hp| ->%list_elem_of_singleton]%elem_of_app.
      - destruct (decide (p = source_path item)) as [->|];
          [by rewrite lookup_insert_eq|].
        rewrite lookup_insert_ne by done. by apply Hin.
      - by rewrite lookup_insert_eq. }
    unfold add_page. simpl. destruct (Py.getitem doc _); simpl; [|done].
    apply Hrest; simpl; rewrite opened_sources_app, app_nil_r;
      [done|done|].
    intros p. rewrite opened_sources_app. simpl.
    intros [Hp| ->%list_elem_of_singleton]%elem_of_app; [by left|].
    right. split; [by destruct (include_var item)|done].
Qed.

Lemma build_app items1 items2 :
  build (items1 ++ items2) = build items1 ++ build items2.
Proof. unfold build. by rewrite filter_app, fmap_app. Qed.

Lemma resolved_content fs (refs : list (string * Z)) :
  Forall (λ ref, is_Some (fetch fs ref)) refs →
  ∃ content, Forall2 (λ ref pg, fetch fs ref = Some pg) refs content.
Proof.
  induction 1 as [|ref refs [pg Hpg] _ [content IH]]; [by exists []|].
  exists (pg :: content). by constructor.
Qed.

(** Either every included page resolves, or there is a first one that
    does not. *)
Lemma first_unresolved fs items :
  Forall (λ ref, is_Some (fetch fs ref)) (build items)
  ∨ ∃ before item after content,
      items = before ++ item :: after
      ∧ Forall2 (λ ref pg, fetch fs ref = Some pg) (build before) content
      ∧ include_var item = true
      ∧ fetch fs (source_path item, page_index item) = None.
Proof.
  induction items as [|item items IH]; [left; constructor|].
  destruct (include_var item) eqn:Hincl.
  - destruct (fetch fs (source_path item, page_index item)) as [pg|] eqn:Hpg.
    + destruct IH
        as [Hall|(before & it & after & content & -> & Hrefs & Hi & Hn)].
      * left. rewrite build_cons, Hincl. constructor; [|done].
        rewrite Hpg. by eexists.
      * right. exists (item :: before), it, after, (pg :: content).
        split; [done|]. split; [|done].
        rewrite build_cons, Hincl. by constructor.
    + right. exists [], item, items, []. split; [done|].
      split; [constructor|done].
  - destruct IH
      as [Hall|(before & it & after & content & -> & Hrefs & Hi & Hn)].
    + left. by rewrite build_cons, Hincl.
    + right. exists (item :: before), it, after, content.
      split; [done|]. split; [|done]. by rewrite build_cons, Hincl.
Qed.

(** The loop raises at the first included page that does not resolve. *)
Lemma export_loop_stops fs before item after st content :
  (∀ path doc, readers st !! path = Some doc → fs !! path = Some doc) →
  Forall2 (λ ref pg, fetch fs ref = Some pg) (build before) content →
  include_var item = true →
  fetch fs (source_path item, page_index item) = None →
  ∃ st',
    export_loop fs (before ++ item :: after) st
    = (st', Raise (match fs !! source_path item with
                   | None => FileNotFoundError (source_path item)
                   | Some _ => IndexError
                   end))
    ∧ added_pages (log st') = added_pages (log st) ++ build before
    ∧ written_files (log st') = written_files (log st).
Proof.
  intros Hcache Hrefs Hincl Hnone.
  destruct (export_loop_ok fs before st content Hcache Hrefs)
    as (st1 & Hrun & _ & Hadded).
  pose proof (export_loop_cache fs before st Hcache) as Hcache1.
  pose proof (export_loop_writes_nothing fs before st) as Hwr.
  rewrite Hrun in Hcache1, Hwr. simpl in Hcache1, Hwr.
  rewrite (export_loop_app _ _ _ _ _ Hrun). simpl. rewrite Hincl. simpl.
  unfold fetch in Hnone. simpl in Hnone. unfold reader_for.
  destruct (readers st1 !! source_path item) as [reader|] eqn:Hreader.
  - rewrite (Hcache1 _ _ Hreader) in Hnone |- *. simpl in Hnone.
    unfold add_page.
    destruct (Py.getitem reader (page_index item)) as [pg|e] eqn:Hget;
      [done|].
    apply getitem_raises in Hget as ->. by exists st1.
  - destruct (fs !! source_path item) as [doc|] eqn:Hdoc; simpl.
    + simpl in Hnone. unfold add_page. simpl.
      destruct (Py.getitem doc (page_index item)) as [pg|e] eqn:Hget;
        [done|].
      apply getitem_raises in Hget as ->. eexists. split; [done|]. simpl.
      unfold added_pages in *.
      rewrite omap_app, written_files_app, Hwr, Hadded. simpl.
      by rewrite !app_nil_r.
    + eexists. split; [done|]. simpl. unfold added_pages in *.
      rewrite omap_app, written_files_app, Hwr, Hadded. simpl.
      by rewrite !app_nil_r.
Qed.


(** When every included page resolves and the output can be opened and
    written, the export returns with the output holding those pages. *)
Lemma export_pdf_returns io fs a out content :
  Forall2 (λ ref pg, fetch fs ref = Some pg) (build (pages a)) content →
  content ≠ [] →
  open_wb io out = Ok () → write_pdf io out = Ok () →
  ∃ calls, _export_pdf io fs a out = (calls, <[out := content]> fs, Ok ()).
Proof.
  intros Hrefs Hne Hopen Hwrite. unfold _export_pdf.
  edestruct (export_loop_ok fs (pages a)) as (st' & -> & Hw & _);
    [|exact Hrefs|].
  { simpl. intros path doc. by rewrite lookup_empty. }
  simpl in Hw. rewrite Hw, Hopen, Hwrite. unfold Py.len.
  destruct content; [done|]. simpl. by eexists.
Qed.


(** The readers are cached by source path: whatever the outcome of an
    export, each source is opened at most once, however many of its pages
    are exported, and only sources of included items are opened. *)
Theorem export_opens_each_source_once io fs a out :
  let calls := (_export_pdf io fs a out).1.1 in
  NoDup (opened_sources calls)
  ∧ ∀ p, p ∈ opened_sources calls →
      ∃ item, item ∈ pages a ∧ include_var item = true
              ∧ source_path item = p.
Proof.
  cbv zeta. unfold _export_pdf.
  set (st0 := {| log := [NewWriter]; readers := ∅; writer := [] |}).
  destruct (export_loop_opens fs (pages a) st0) as [Hnd Hfrom].
  { simpl. constructor. }
  { simpl. by intros p ?%elem_of_nil. }
  cbv zeta in Hnd, Hfrom.
  assert (∀ p, p ∈ opened_sources (log (export_loop fs (pages a) st0).1) →
            ∃ item, item ∈ pages a ∧ include_var item = true
                    ∧ source_path item = p) as Hfrom'.
  { intros p [Hp|Hp]%Hfrom; [|done]. simpl in Hp. by apply elem_of_nil in Hp. }
  destruct (export_loop fs (pages a) st0) as [st [[]|e]]; simpl in *;
    [|done].
  destruct (Py.len (writer st) =? 0); simpl; [done|].
  destruct (open_wb io out) as [[]|e]; simpl;
    [destruct (write_pdf io out) as [[]|e]; simpl|];
    by rewrite opened_sources_app, app_nil_r.
Qed.

(** An export returns exactly when at least one page is included, every
    included page resolves in the stored documents, and the output can be
    opened and written; the output then holds those pages in collection
    order. When it raises, either no file was touched (no page included,
    an included page that does not resolve, or an output that cannot be
    opened), or the output was opened and the write failed, which leaves
    no document at the output path. No other file changes in any
    outcome. *)
Theorem export_returns_iff_every_step_does io fs a out :
  let '(calls, fs', outcome) := _export_pdf io fs a out in
  (∀ p, p ≠ out → fs' !! p = fs !! p)
  ∧ (outcome = Ok ()
     ↔ build (pages a) ≠ []
       ∧ Forall (λ ref, is_Some (fetch fs ref)) (build (pages a))
       ∧ open_wb io out = Ok () ∧ write_pdf io out = Ok ())
  ∧ match outcome with
    | Ok _ =>
        ∃ content,
          Forall2 (λ ref pg, fetch fs ref = Some pg) (build (pages a)) content
          ∧ fs' = <[out := content]> fs
          ∧ written_files calls = [out]
    | Raise e =>
        (fs' = fs ∧ written_files calls = []
         ∧ (build (pages a) = []
            ∨ (∃ ref, ref ∈ build (pages a) ∧ fetch fs ref = None)
            ∨ open_wb io out = Raise e))
        ∨ (fs' = delete out fs ∧ open_wb io out = Ok ()
           ∧ write_pdf io out = Raise e)
    end.
Proof.
  unfold _export_pdf.
  set (st0 := {| log := [NewWriter]; readers := ∅; writer := [] |}).
  pose proof (export_loop_writes_nothing fs (pages a) st0) as Hwr.
  assert (∀ path doc, readers st0 !! path = Some doc → fs !! path = Some doc)
    as Hcache by (intros path doc; simpl; by rewrite lookup_empty).
  destruct (first_unresolved fs (pages a))
    as [Hall|(before & item & after & content & Hpages & Hrefs & Hi & Hn)].
  - destruct (resolved_content fs _ Hall) as [content Hrefs].
    destruct (export_loop_ok fs (pages a) st0 content Hcache Hrefs)
      as (st & Hrun & Hw & _).
    rewrite Hrun in Hwr |- *. simpl in Hw, Hwr. rewrite Hw. unfold Py.len.
    destruct content as [|pg content]; simpl.
    { apply Forall2_nil_inv_r in Hrefs.
      split; [done|]. split; [split; [done|by intros [? _]]|].
      left. split; [done|]. split; [done|by left]. }
    assert (build (pages a) ≠ []) as Hne.
    { intros Hnil. rewrite Hnil in Hrefs. by apply Forall2_nil_inv_l in Hrefs. }
    destruct (open_wb io out) as [[]|e] eqn:Hopen; simpl.
    + destruct (write_pdf io out) as [[]|e] eqn:Hwrite; simpl.
      * split; [intros p Hp; by rewrite lookup_insert_ne|].
        split; [done|]. exists (pg :: content). split; [done|].
        split; [done|]. by rewrite written_files_app, Hwr.
      * split; [intros p Hp; by rewrite lookup_delete_ne|].
        split; [split; [done|by intros (_ & _ & _ & ?)]|]. by right.
    + split; [done|]. split; [split; [done|by intros (_ & _ & ? & _)]|].
      left. split; [done|]. rewrite written_files_app, Hwr.
      split; [done|]. by right; right.
  - rewrite Hpages.
    destruct (export_loop_stops fs before item after st0 content
                Hcache Hrefs Hi Hn) as (st' & -> & _ & Hwr').
    simpl. split; [done|]. split.
    + split; [done|]. intros (_ & Hall & _). exfalso.
      rewrite build_app, build_cons, Hi in Hall.
      apply Forall_app in Hall as [_ Hall].
      apply Forall_cons in Hall as [[pg Hpg] _]. congruence.
    + left. split; [done|]. split; [by rewrite Hwr'|]. right. left.
      exists (source_path item, page_index item). split; [|done].
      rewrite build_app, build_cons, Hi. apply elem_of_app. right. by left.
Qed.

(** The export stops at the first included page that does not resolve:
    the pages before it were handed to the writer, the exception is
    [FileNotFoundError] for a source that is not stored and [IndexError]
    for a page number outside the document, and nothing is written. *)
Theorem export_stops_at_first_unresolved
    io fs a out before item after content :
  pages a = before ++ item :: after →
  Forall2 (λ ref pg, fetch fs ref = Some pg) (build before) content →
  include_var item = true →
  fetch fs (source_path item, page_index item) = None →
  (_export_pdf io fs a out).2
  = Raise (match fs !! source_path item with
           | None => FileNotFoundError (source_path item)
           | Some _ => IndexError
           end)
  ∧ added_pages (_export_pdf io fs a out).1.1 = build before
  ∧ written_files (_export_pdf io fs a out).1.1 = []
  ∧ (_export_pdf io fs a out).1.2 = fs.
Proof.
  intros Hpages Hrefs Hincl Hnone. unfold _export_pdf. rewrite Hpages.
  set (st0 := {| log := [NewWriter]; readers := ∅; writer := [] |}).
  assert (∀ path doc, readers st0 !! path = Some doc → fs !! path = Some doc)
    as Hcache by (intros path doc; simpl; by rewrite lookup_empty).
  destruct (export_loop_stops fs before item after st0 content
              Hcache Hrefs Hincl Hnone) as (st' & -> & Hadded & Hwr).
  simpl. by rewrite Hadded, Hwr.
Qed.

(** Exporting twice to the same path gives the same file system as
    exporting once, provided the output is not a source of an included
    page. *)
Theorem export_again_changes_nothing io fs a out :
  (_export_pdf io fs a out).2 = Ok () →
  (∀ item, item ∈ pages a → include_var item = true →
           source_path item ≠ out) →
  let fs' := (_export_pdf io fs a out).1.2 in
  (_export_pdf io fs' a out).2 = Ok ()
  ∧ (_export_pdf io fs' a out).1.2 = fs'.
Proof.
  intros Hfirst Hout. cbv zeta.
  assert (∃ content,
            content ≠ []
            ∧ Forall2 (λ ref pg, fetch fs ref = Some pg)
                (build (pages a)) content
            ∧ open_wb io out = Ok () ∧ write_pdf io out = Ok ()
            ∧ (_export_pdf io fs a out).1.2 = <[out := content]> fs)
    as (content & Hne & Hrefs & Hopen & Hwrite & ->).
  { unfold _export_pdf in *.
    set (st0 := {| log := [NewWriter]; readers := ∅; writer := [] |}) in *.
    assert (∀ path doc,
              readers st0 !! path = Some doc → fs !! path = Some doc)
      as Hcache by (intros path doc; simpl; by rewrite lookup_empty).
    destruct (export_loop fs (pages a) st0) as [st [[]|e]] eqn:Hrun;
      [|done].
    destruct (export_loop_sound fs (pages a) st0 st Hcache Hrun)
      as (content & Hw & Hrefs).
    simpl in Hw. rewrite Hw in Hfirst |- *.
    destruct (Py.len content =? 0) eqn:Hlen; [done|].
    destruct (open_wb io out) as [[]|e]; [|done].
    destruct (write_pdf io out) as [[]|e]; [|done].
    exists content. split; [by intros ->|done]. }
  assert (Forall2 (λ ref pg, fetch (<[out := content]> fs) ref = Some pg)
            (build (pages a)) content) as Hrefs'.
  { assert (∀ ref, ref ∈ build (pages a) → ref.1 ≠ out) as Hsrc.
    { intros ref (item & -> & Hin)%list_elem_of_fmap.
      apply list_elem_of_filter in Hin as [Hincl Hin]. simpl.
      by apply Hout. }
    set (fs2 := <[out := content]> fs).
    assert (∀ ref, ref.1 ≠ out → fetch fs2 ref = fetch fs ref) as Hfetch.
    { intros ref Href. unfold fetch, fs2. by rewrite lookup_insert_ne. }
    clearbody fs2. revert Hsrc Hrefs. generalize (build (pages a)) content.
    intros refs cont Hsrc Hrefs.
    induction Hrefs as [|ref pg refs' cont' Hpg _ IH]; constructor.
    - rewrite Hfetch; [done|]. apply Hsrc. by left.
    - apply IH. intros r Hr. apply Hsrc. by right. }
  destruct (export_pdf_returns io _ a out content Hrefs' Hne Hopen Hwrite)
    as [calls ->].
  simpl. by rewrite insert_insert_eq.
Qed.

(** When the output cannot be opened for writing the export raises what
    [open] raised, after every included page was read and added, and no
    file is touched; [on_export] then shows that exception in the
    "Export failed" dialog and leaves the status line as it was. *)
Theorem export_to_unwritable_path io m fs a out ui content e :
  Forall2 (λ ref pg, fetch fs ref = Some pg) (build (pages a)) content →
  content ≠ [] →
  open_wb io out = Raise e →
  (_export_pdf io fs a out).2 = Raise e
  ∧ (_export_pdf io fs a out).1.2 = fs
  ∧ added_pages (_export_pdf io fs a out).1.1 = build (pages a)
  ∧ written_files (_export_pdf io fs a out).1.1 = []
  ∧ (has_PdfReader m = true → has_PdfWriter m = true → out ≠ "" →
     (on_export io m out fs a ui).1.1
     = open_dialog (ShowFailure "Export failed" "Could not export PDF:" e)
         (open_dialog AskSaveFile ui)
     ∧ (on_export io m out fs a ui).2 = fs).
Proof.
  intros Hrefs Hne Hopen.
  set (st0 := {| log := [NewWriter]; readers := ∅;
                 writer := @nil page_content |}).
  assert (∀ path doc, readers st0 !! path = Some doc → fs !! path = Some doc)
    as Hcache by (intros path doc; simpl; by rewrite lookup_empty).
  destruct (export_loop_ok fs (pages a) st0 content Hcache Hrefs)
    as (st & Hrun & Hw & Hadded).
  pose proof (export_loop_writes_nothing fs (pages a) st0) as Hwr.
  rewrite Hrun in Hwr. simpl in Hw, Hwr, Hadded.
  assert (_export_pdf io fs a out
          = (log st ++ [OpenOutput out], fs, Raise e)) as Hexport.
  { unfold _export_pdf. fold st0. rewrite Hrun, Hw, Hopen. unfold Py.len.
    by destruct content. }
  rewrite Hexport. simpl. split; [done|]. split; [done|].
  unfold added_pages in *. rewrite omap_app, written_files_app, Hadded, Hwr.
  simpl. split; [by rewrite app_nil_r|]. split; [done|].
  intros HR HW Hout. unfold on_export.
  destruct (pages a) as [|item items] eqn:Hpages.
  { by apply Forall2_nil_inv_l in Hrefs. }
  rewrite HR, HW. simpl.
  destruct (String.eqb_spec out "") as [->|_]; [done|].
  by rewrite Hexport.
Qed.

(** What [on_export] tells the user is true: the status line changes only
    to report an export, and it does so only when the chosen file was
    opened and written with exactly the included pages. In every other
    outcome the status line is as before, and so are the files, except
    that a write that fails after the output was opened leaves no document
    at the chosen path; no other file ever changes. When the collection
    is empty, pypdf is missing or the save dialog is cancelled, pypdf is
    not even called. *)
Theorem export_status_is_truthful io m answer fs a ui :
  let '(ui', calls, fs') := on_export io m answer fs a ui in
  (∀ p, p ≠ answer → fs' !! p = fs !! p)
  ∧ ((status ui' = status ui ∧ fs' = fs)
     ∨ (status ui' = status ui ∧ fs' = delete answer fs
        ∧ open_wb io answer = Ok ()
        ∧ ∃ e, write_pdf io answer = Raise e
            ∧ dialogs ui'
              = dialogs ui
                  ++ [AskSaveFile;
                      ShowFailure "Export failed" "Could not export PDF:" e])
     ∨ (status ui' = "Exported to " +:+ answer
        ∧ dialogs ui' = dialogs ui ++ [AskSaveFile]
        ∧ open_wb io answer = Ok () ∧ write_pdf io answer = Ok ()
        ∧ written_files calls = [answer]
        ∧ ∃ content, content ≠ []
            ∧ Forall2 (λ ref pg, fetch fs ref = Some pg)
                (build (pages a)) content
            ∧ fs' = <[answer := content]> fs))
  ∧ (pages a = [] ∨ has_PdfReader m = false ∨ has_PdfWriter m = false
     ∨ answer = "" →
     calls = [] ∧ fs' = fs ∧ status ui' = status ui).
Proof.
  unfold on_export. destruct (pages a) as [|item items] eqn:Hpages.
  { split; [done|]. split; [by left|done]. }
  destruct (has_PdfReader m) eqn:HR; simpl;
    [|split; [done|]; split; [by left|done]].
  destruct (has_PdfWriter m) eqn:HW; simpl;
    [|split; [done|]; split; [by left|done]].
  destruct (String.eqb_spec answer "") as [->|Hanswer].
  { split; [done|]. split; [by left|done]. }
  assert (¬ (pages a = [] ∨ true = false ∨ true = false ∨ answer = ""))
    as Hguard.
  { intros [Hp|[?|[?|?]]]; try done. by rewrite Hpages in Hp. }
  rewrite <- Hpages. unfold _export_pdf.
  set (st0 := {| log := [NewWriter]; readers := ∅; writer := [] |}).
  pose proof (export_loop_writes_nothing fs (pages a) st0) as Hwr.
  assert (∀ path doc, readers st0 !! path = Some doc → fs !! path = Some doc)
    as Hcache by (intros path doc; simpl; by rewrite lookup_empty).
  destruct (export_loop fs (pages a) st0) as [st [[]|e]] eqn:Hrun;
    simpl in Hwr;
    [|split; [done|]; split; [by left|by intros ?%Hguard]].
  destruct (export_loop_sound fs (pages a) st0 st Hcache Hrun)
    as (content & Hw & Hrefs).
  simpl in Hw. rewrite Hw. unfold Py.len.
  destruct content as [|pg content]; simpl;
    [split; [done|]; split; [by left|by intros ?%Hguard]|].
  destruct (open_wb io answer) as [[]|e] eqn:Hopen; simpl;
    [|split; [done|]; split; [by left|by intros ?%Hguard]].
  destruct (write_pdf io answer) as [[]|e] eqn:Hwrite; simpl.
  - split; [intros p Hp; by rewrite lookup_insert_ne|].
    split; [|by intros ?%Hguard]. right. right.
    split; [done|]. split; [done|]. split; [done|]. split; [done|].
    split; [by rewrite written_files_app, Hwr|].
    by exists (pg :: content).
  - split; [intros p Hp; by rewrite lookup_delete_ne|].
    split; [|by intros ?%Hguard]. right. left.
    split; [done|]. split; [done|]. split; [done|].
    exists e. split; [done|]. by rewrite <- app_assoc.
Qed.

End ExportProperties.


Lemma export_stops_at_first_unresolved_witness :
  (_export_pdf Demo.writable Sample.docs Demo.lost_source "out.pdf").2
  = Raise (FileNotFoundError "gone")
  ∧ (_export_pdf Demo.writable Sample.docs Demo.lost_source "out.pdf").1.2
    = Sample.docs.
Proof.
  destruct (export_stops_at_first_unresolved Demo.writable Sample.docs
              Demo.lost_source "out.pdf"
              [Sample.page "docX" 1 true] (Sample.page "gone" 0 true)
              [Sample.page "docY" 0 true] ["X1"])
    as (Hraise & _ & _ & Hdisk).
  - reflexivity.
  - repeat constructor.
  - reflexivity.
  - reflexivity.
  - split; [exact Hraise|exact Hdisk].
Defined.

Lemma export_again_changes_nothing_witness :
  (_export_pdf Demo.writable
     (_export_pdf Demo.writable Sample.docs
        (Sample.export_app [true; false; true]) "out.pdf").1.2
     (Sample.export_app [true; false; true]) "out.pdf").2
  = Ok ().
Proof.
  apply (export_again_changes_nothing Demo.writable Sample.docs
           (Sample.export_app [true; false; true]) "out.pdf").
  - vm_compute. reflexivity.
  - intros item Hitem _.
    repeat (apply elem_of_cons in Hitem as [->|Hitem]; [discriminate|]).
    by apply elem_of_nil in Hitem.
Defined.

Lemma export_to_unwritable_path_witness :
  (on_export Demo.no_directory Demo.all_imports "nodir/out.pdf" Sample.docs
     (Sample.export_app [true; false; true]) init_ui).1.1
  = {| status := "Ready";
       dialogs := [AskSaveFile;
                   ShowFailure "Export failed" "Could not export PDF:"
                     (FileNotFoundError "nodir/out.pdf")] |}
  ∧ (on_export Demo.no_directory Demo.all_imports "nodir/out.pdf" Sample.docs
       (Sample.export_app [true; false; true]) init_ui).2
    = Sample.docs.
Proof.
  destruct (export_to_unwritable_path Demo.no_directory Demo.all_imports
              Sample.docs (Sample.export_app [true; false; true])
              "nodir/out.pdf" init_ui ["X0"; "Y0"]
              (FileNotFoundError "nodir/out.pdf"))
    as (_ & _ & _ & _ & Hshown).
  - repeat constructor.
  - discriminate.
  - reflexivity.
  - apply Hshown; [reflexivity|reflexivity|discriminate].
Defined.

(** * The startup check and the guards *)



(** * Conservation *)

(** In a session, no click, drag or release adds, drops or duplicates a
    page, or parts a page from its frame: the pairs of page and frame
    after the handler are a permutation of those before. *)
Theorem pointer_events_conserve_pages a act a' :
  reachable a → aimed a act → run act a = Ok a' →
  (∀ item frame, act ≠ Import item frame) → (∀ i, act ≠ Toggle i) →
  zip (pages a') (page_frames a') ≡ₚ zip (pages a) (page_frames a).
Proof.
  intros Ha Haim Hrun Himp Htog. pose proof (reachable_Inv a Ha) as HI.
  destruct act as [item fr|i|tk event fr|tk event fr|event fr];
    simpl in Hrun.
  - by destruct (Himp item fr).
  - by destruct (Htog i).
  - destruct (on_click_shape tk event fr a)
      as (index & a1 & _ & Hrun1 & Hp & Hf & _).
    rewrite Hrun in Hrun1. injection Hrun1 as <-. by rewrite Hp, Hf.
  - destruct (drag_start_index a) as [start|] eqn:Hst.
    + destruct (on_drag_shape tk event fr a start Hst) as [x Hrun1].
      rewrite Hrun in Hrun1. by injection Hrun1 as ->.
    + unfold _on_drag in Hrun. rewrite Hst in Hrun. by injection Hrun as <-.
  - destruct (on_release_aborts event fr a) as [Habort Hempty].
    destruct (hide_insert_bar_fields a) as (Hp & Hf & _).
    destruct (dragging a) eqn:Hdrag.
    2:{ rewrite Habort in Hrun by (by left). by injection Hrun as <-. }
    destruct (drop_index a) as [d|] eqn:Hdrop.
    2:{ rewrite Habort in Hrun by (by right). by injection Hrun as <-. }
    destruct (decide (selected_indices a = [])) as [Hsel|Hsel].
    { rewrite Hempty in Hrun by done. injection Hrun as <-.
      by rewrite Hp, Hf. }
    destruct HI as [Hlock Hnd Hr _ Hd].
    rewrite (on_release_relocates event fr a d) in Hrun by auto.
    injection Hrun as <-. simpl.
    rewrite <- relocated_zip by done. apply relocated_perm.
Qed.

Lemma pointer_events_conserve_pages_witness :
  zip (pages (set_drag false (Some 0) None
                (set_last_clicked_index (Some 0)
                   (set_selected_indices [0] Sample.fresh))))
    (page_frames Sample.fresh)
  ≡ₚ zip (pages Sample.fresh) (page_frames Sample.fresh).
Proof.
  apply (pointer_events_conserve_pages Sample.fresh
           (Click Sample.tk (Sample.plain 20) (Sample.frame 0))
           (set_drag false (Some 0) None
              (set_last_clicked_index (Some 0)
                 (set_selected_indices [0] Sample.fresh)))).
  - exact reachable_fresh.
  - unfold aimed. by_computing.
  - reflexivity.
  - discriminate.
  - discriminate.
Defined.

(** * Import followed by export *)

Lemma build_document count thumbs path :
  build (document_pages count thumbs path)
  = (λ i, (path, i)) <$> Py.range 0 (Z.of_nat (count path)).
Proof.
  unfold build, document_pages.
  rewrite filter_all by (by intros item (i & -> & _)%list_elem_of_fmap).
  rewrite <- list_fmap_compose. by apply list_fmap_ext.
Qed.

Lemma fetch_document {page_content : Type}
    (fs : gmap string (list page_content)) path doc :
  fs !! path = Some doc →
  Forall2 (λ ref pg, fetch fs ref = Some pg)
    ((λ i, (path, i)) <$> Py.range 0 (Z.of_nat (length doc))) doc.
Proof.
  intros Hdoc. apply Forall2_same_length_lookup.
  split; [by rewrite length_fmap, length_range, Z.sub_0_r, Nat2Z.id|].
  intros k ref pg Href Hpg.
  rewrite list_lookup_fmap in Href. unfold Py.range in Href.
  rewrite list_lookup_fmap in Href.
  destruct (seq 0 _ !! k) as [j|] eqn:Hj; [|done].
  apply lookup_seq in Hj as [-> _]. simpl in Href. injection Href as <-.
  unfold fetch. simpl. rewrite Hdoc. simpl.
  rewrite Z.add_0_l.
  rewrite (getitem_ok doc (Z.of_nat k) pg); [done|lia|by rewrite Nat2Z.id].
Qed.

(** Importing files into an empty collection and exporting at once writes
    their concatenation: when every chosen file opens and renders, and is
    stored with as many pages as [fitz] counted, the exported file holds
    the pages of the chosen files, file by file in the order chosen. *)
Theorem import_then_export_concatenates {page_content : Type}
    io m prov count thumbs paths (fs : gmap string (list page_content))
    a out :
  has_fitz m = true →
  pages a = [] →
  open_wb io out = Ok () → write_pdf io out = Ok () →
  (∀ path, path ∈ paths → fitz_open prov path = Ok (count path)) →
  (∀ path i, path ∈ paths → 0 ≤ i < Z.of_nat (count path) →
     render prov path i = Ok (thumbs path i)) →
  (∀ path, path ∈ paths →
     ∃ doc, fs !! path = Some doc ∧ length doc = count path) →
  let content := paths ≫= (λ path, default [] (fs !! path)) in
  let exported := _export_pdf io fs (_import_pdfs m prov paths a).1 out in
  exported.2
  = match content with
    | [] => Raise (RuntimeError "No pages selected for export.")
    | _ => Ok ()
    end
  ∧ exported.1.2
    = match content with
      | [] => fs
      | _ => <[out := content]> fs
      end.
Proof.
  intros Hfitz Hempty Hwopen Hwrite Hopen Hrender Hstored content.
  cbv zeta. unfold _import_pdfs.
  rewrite (import_docs_ok m prov count thumbs paths a Hfitz Hopen Hrender).
  unfold _export_pdf. simpl. rewrite Hempty. simpl.
  assert (Forall2 (λ ref pg, fetch fs ref = Some pg)
            (build (paths ≫= document_pages count thumbs)) content)
    as Hrefs.
  { subst content. clear Hopen Hrender.
    induction paths as [|path paths IH]; [constructor|].
    simpl. rewrite build_app, build_document.
    destruct (Hstored path) as (doc & Hdoc & Hlen); [by left|].
    apply Forall2_app.
    - rewrite Hdoc. simpl. rewrite <- Hlen. by apply fetch_document.
    - apply IH. intros p Hp. apply Hstored. by right. }
  edestruct (export_loop_ok fs (paths ≫= document_pages count thumbs))
    as (st' & -> & Hw & _); [|exact Hrefs|].
  { simpl. intros path doc. by rewrite lookup_empty. }
  simpl in Hw. rewrite Hw, Hwopen, Hwrite. unfold Py.len.
  by destruct content.
Qed.

Lemma import_then_export_concatenates_witness :
  (_export_pdf Demo.writable
     {[ "a.pdf" := ["a0"; "a1"]; "b.pdf" := ["b0"] ]}
     (_import_pdfs Demo.all_imports Demo.provider ["b.pdf"; "a.pdf"] init).1
     "out.pdf").1.2
  = <["out.pdf" := ["b0"; "a0"; "a1"]]>
      {[ "a.pdf" := ["a0"; "a1"]; "b.pdf" := ["b0"] ]}.
Proof.
  destruct (import_then_export_concatenates Demo.writable Demo.all_imports
              Demo.provider
              (λ path, if String.eqb path "a.pdf" then 2 else 1)%nat
              (λ _ _, (0, 0)%nat) ["b.pdf"; "a.pdf"]
              {[ "a.pdf" := ["a0"; "a1"]; "b.pdf" := ["b0"] ]} init "out.pdf")
    as [_ Hdisk].
  - reflexivity.
  - reflexivity.
  - reflexivity.
  - reflexivity.
  - intros path Hpath. repeat (apply elem_of_cons in Hpath as [->|Hpath];
      [reflexivity|]). by apply elem_of_nil in Hpath.
  - reflexivity.
  - intros path Hpath. repeat (apply elem_of_cons in Hpath as [->|Hpath];
      [eexists; split; reflexivity|]). by apply elem_of_nil in Hpath.
  - rewrite Hdisk. vm_compute. reflexivity.
Defined.

(** * Clicks and the resolver *)


